(** * Certificate-store operations of the Keyfactor Go client (api/store.go)

    A shallow embedding of the property codec ([buildPropertiesInterface],
    [unmarshalPropertiesString]), of the argument validation and façade
    operations ([CreateStore], [UpdateStore], [DeleteCertificateStore],
    [ListCertificateStores], [GetCertificateStoreByID]), of the inventory
    decoder ([GetCertStoreInventory]) and of the store-type operations of
    api/store_type.go, followed by the properties proved of them.

    Conventions.
    - A Go [string] is a [string] of bytes; an [error] is its message.
    - A value of type [interface{}] that came out of encoding/json is a
      [json.value]; a Go [map[string]T] is a [gmap string T].
    - A run-time panic (a failed unchecked type assertion) is the outcome
      [Panicked]; it is not an [error] value and reaches no caller code.
    - Go maps and slices are references.  The inventory decoder copies a
      struct that holds three maps and a slice while it still writes to
      them, so its model allocates maps and backing arrays in a store and the
      struct carries references, as the Go value does. *)

From Stdlib Require Import ZArith Ascii String DecimalString.
From stdpp Require Import gmap strings list fin_maps.

Set Warnings "-register-all,-abstract-large-number".
Local Open Scope Z_scope.

(* ===================================================================== *)
(** * encoding/json: the values, [Unmarshal], [Decode] and [Marshal]

    The package is Go's, not this repository's.  The module below is a
    reference model of it, used to evaluate the operations at concrete
    texts; the theorems depend on it through the outcome of a parse only. *)
(* ===================================================================== *)

Module json.

(** A JSON number decoded into an [interface{}] is a [float64].  The model
    keeps the decimal of the text, [mant * 10 ^ exp10], exactly; the rounding
    to 53 bits is not modelled.  Both agree on the integers below [2 ^ 53],
    which is where the identifiers of the service live. *)
Record float64 := Float64 { mant : Z; exp10 : Z }.

(** [int(f)]: conversion to an integer truncates toward zero. *)
Definition int_of_float64 (f : float64) : Z :=
  if 0 <=? exp10 f then mant f * 10 ^ exp10 f
  else Z.quot (mant f) (10 ^ (- exp10 f)).

(** What [Unmarshal] stores into an [interface{}]: [nil], [bool],
    [float64], [string], [[]interface{}] or [map[string]interface{}]. *)
Inductive value :=
| JNull
| JBool (b : bool)
| JNumber (f : float64)
| JString (s : string)
| JArray (l : list value)
| JObject (o : gmap string value).

(** ** Reading *)

Definition byte (c : ascii) : N := N_of_ascii c.

Definition is_space (c : ascii) : bool :=
  match c with
  | " "%char | "009"%char | "010"%char | "013"%char => true
  | _ => false
  end.

Definition is_digit (c : ascii) : bool :=
  ((48 <=? byte c) && (byte c <=? 57))%N.

Definition digit_val (c : ascii) : Z := Z.of_N (byte c) - 48.

Definition hex_val (c : ascii) : option N :=
  let b := byte c in
  if ((48 <=? b) && (b <=? 57))%N then Some (b - 48)%N
  else if ((97 <=? b) && (b <=? 102))%N then Some (b - 87)%N
  else if ((65 <=? b) && (b <=? 70))%N then Some (b - 55)%N
  else None.

Fixpoint skip_space (s : string) : string :=
  match s with
  | String c r => if is_space c then skip_space r else s
  | EmptyString => s
  end.

(** The four hexadecimal digits of a [\u] escape. *)
Definition getu4 (s : string) : option (N * string) :=
  match s with
  | String a (String b (String c (String d r))) =>
      match hex_val a, hex_val b, hex_val c, hex_val d with
      | Some x, Some y, Some z, Some w =>
          Some (x * 4096 + y * 256 + z * 16 + w, r)%N
      | _, _, _, _ => None
      end
  | _ => None
  end.

Definition chr (n : N) : ascii := ascii_of_N n.

(** UTF-8 encoding of a code point (utf8.EncodeRune). *)
Definition encode_rune (r : N) : string :=
  (if r <? 128 then String (chr r) EmptyString
   else if r <? 2048 then
     String (chr (192 + r / 64)) (String (chr (128 + r mod 64)) EmptyString)
   else if r <? 65536 then
     String (chr (224 + r / 4096))
       (String (chr (128 + (r / 64) mod 64))
          (String (chr (128 + r mod 64)) EmptyString))
   else
     String (chr (240 + r / 262144))
       (String (chr (128 + (r / 4096) mod 64))
          (String (chr (128 + (r / 64) mod 64))
             (String (chr (128 + r mod 64)) EmptyString))))%N.

Definition replacement_char : N := 65533.

Definition is_surrogate (r : N) : bool := ((55296 <=? r) && (r <? 57344))%N.

(** utf16.DecodeRune: a high surrogate followed by a low one. *)
Definition decode_surrogates (r1 r2 : N) : option N :=
  if ((55296 <=? r1) && (r1 <? 56320) && (56320 <=? r2) && (r2 <? 57344))%N
  then Some ((r1 - 55296) * 1024 + (r2 - 56320) + 65536)%N
  else None.

(** The body of a string literal, after its opening quote.  [acc] holds the
    bytes read so far, last first.  Bytes from 128 up are copied: the text is
    taken to be valid UTF-8 (Go replaces a byte that is not by U+FFFD). *)
Fixpoint read_string (fuel : nat) (s : string) (acc : list ascii)
  : option (string * string) :=
  match fuel with
  | O => None
  | S fuel =>
      match s with
      | EmptyString => None
      | String c r =>
          if Ascii.eqb c "034"%char then
            Some (string_of_list_ascii (rev' acc), r)
          else if Ascii.eqb c "\"%char then
            match r with
            | EmptyString => None
            | String e r' =>
                let simple (x : ascii) := read_string fuel r' (x :: acc) in
                match e with
                | "034"%char | "\"%char | "/"%char => simple e
                | "b"%char => simple "008"%char
                | "f"%char => simple "012"%char
                | "n"%char => simple "010"%char
                | "r"%char => simple "013"%char
                | "t"%char => simple "009"%char
                | "u"%char =>
                    match getu4 r' with
                    | None => None
                    | Some (r1, rest) =>
                        let plain (cp : N) (rest : string) :=
                          read_string fuel rest
                            (rev' (list_ascii_of_string (encode_rune cp)) ++ acc) in
                        if is_surrogate r1 then
                          match rest with
                          | String "\"%char (String "u"%char rest') =>
                              match getu4 rest' with
                              | None => None
                              | Some (r2, rest'') =>
                                  match decode_surrogates r1 r2 with
                                  | Some cp => plain cp rest''
                                  | None => plain replacement_char rest
                                  end
                              end
                          | _ => plain replacement_char rest
                          end
                        else plain r1 rest
                    end
                | _ => None
                end
            end
          else if (byte c <? 32)%N then None
          else read_string fuel r (c :: acc)
      end
  end.

(** A run of digits: its value appended to [acc], how many there were, and
    the rest of the text. *)
Fixpoint read_digits (s : string) (acc : Z) (n : Z) : Z * Z * string :=
  match s with
  | String c r =>
      if is_digit c then read_digits r (acc * 10 + digit_val c) (n + 1)
      else (acc, n, s)
  | EmptyString => (acc, n, s)
  end.

(** Above this magnitude a decimal rounds to an infinite [float64], which
    strconv.ParseFloat reports as a range error. *)
Definition float64_limit : Z := 2 ^ 1024 - 2 ^ 970.

Definition float64_overflows (m e : Z) : bool :=
  if m =? 0 then false
  else if 400 <? e then true
  else if 0 <=? e then float64_limit <=? Z.abs m * 10 ^ e
  else float64_limit * 10 ^ (- e) <=? Z.abs m.

(** A number literal; [s] starts at its first character. *)
Definition read_number (s : string) : option (float64 * string) :=
  let '(neg, s1) :=
    match s with
    | String "-"%char r => (true, r)
    | _ => (false, s)
    end in
  match s1 with
  | String c r =>
      if negb (is_digit c) then None
      else
        let '(ip, s2) :=
          if Ascii.eqb c "0"%char then (0, r)
          else let '(v, _, rest) := read_digits s1 0 0 in (v, rest) in
        let frac : option (Z * Z * string) :=
          match s2 with
          | String "."%char r2 =>
              let '(v, n, rest) := read_digits r2 ip 0 in
              if n =? 0 then None else Some (v, n, rest)
          | _ => Some (ip, 0, s2)
          end in
        match frac with
        | None => None
        | Some (m, nfrac, s3) =>
            let expo : option (Z * string) :=
              match s3 with
              | String e r3 =>
                  if Ascii.eqb e "e"%char || Ascii.eqb e "E"%char then
                    let '(eneg, r4) :=
                      match r3 with
                      | String "-"%char r4 => (true, r4)
                      | String "+"%char r4 => (false, r4)
                      | _ => (false, r3)
                      end in
                    let '(v, n, rest) := read_digits r4 0 0 in
                    if n =? 0 then None
                    else Some (if eneg : bool then - v else v, rest)
                  else Some (0, s3)
              | EmptyString => Some (0, s3)
              end in
            match expo with
            | None => None
            | Some (ex, s4) =>
                let m' := if neg : bool then - m else m in
                let e' := ex - nfrac in
                if float64_overflows m' e' then None
                else Some (Float64 m' e', s4)
            end
        end
  | EmptyString => None
  end.

(** A literal name ([true], [false], [null]). *)
Fixpoint read_literal (lit s : string) : option string :=
  match lit with
  | EmptyString => Some s
  | String c lit' =>
      match s with
      | String d r => if Ascii.eqb c d then read_literal lit' r else None
      | EmptyString => None
      end
  end.

(** The scanner refuses a value nested deeper than this. *)
Definition maxNestingDepth : nat := 10000.

(** Recursive descent.  [fuel] bounds the number of calls (the length of
    the text is enough), [depth] counts the open arrays and objects.  An
    object keeps, of two members with one name, the later. *)
Fixpoint read_value (fuel depth : nat) (s : string) : option (value * string) :=
  match fuel with
  | O => None
  | S fuel =>
      match skip_space s with
      | String "{"%char r =>
          if (maxNestingDepth <=? depth)%nat then None
          else
            match skip_space r with
            | String "}"%char r' => Some (JObject ∅, r')
            | _ => read_members fuel (S depth) r ∅
            end
      | String "["%char r =>
          if (maxNestingDepth <=? depth)%nat then None
          else
            match skip_space r with
            | String "]"%char r' => Some (JArray [], r')
            | _ => read_elements fuel (S depth) r []
            end
      | String "034"%char r =>
          match read_string (String.length r) r [] with
          | Some (str, r') => Some (JString str, r')
          | None => None
          end
      | String "t"%char _ =>
          option_map (pair (JBool true)) (read_literal "true" (skip_space s))
      | String "f"%char _ =>
          option_map (pair (JBool false)) (read_literal "false" (skip_space s))
      | String "n"%char _ =>
          option_map (pair JNull) (read_literal "null" (skip_space s))
      | _ =>
          match read_number (skip_space s) with
          | Some (f, r) => Some (JNumber f, r)
          | None => None
          end
      end
  end
with read_members (fuel depth : nat) (s : string) (acc : gmap string value)
  : option (value * string) :=
  match fuel with
  | O => None
  | S fuel =>
      match skip_space s with
      | String "034"%char r =>
          match read_string (String.length r) r [] with
          | Some (key, r1) =>
              match skip_space r1 with
              | String ":"%char r2 =>
                  match read_value fuel depth r2 with
                  | Some (v, r3) =>
                      match skip_space r3 with
                      | String ","%char r4 =>
                          read_members fuel depth r4 (<[key := v]> acc)
                      | String "}"%char r4 =>
                          Some (JObject (<[key := v]> acc), r4)
                      | _ => None
                      end
                  | None => None
                  end
              | _ => None
              end
          | None => None
          end
      | _ => None
      end
  end
with read_elements (fuel depth : nat) (s : string) (acc : list value)
  : option (value * string) :=
  match fuel with
  | O => None
  | S fuel =>
      match read_value fuel depth s with
      | Some (v, r) =>
          match skip_space r with
          | String ","%char r' => read_elements fuel depth r' (v :: acc)
          | String "]"%char r' => Some (JArray (rev' (v :: acc)), r')
          | _ => None
          end
      | None => None
      end
  end.

Definition read_top (s : string) : option (value * string) :=
  read_value (S (String.length s)) 0 s.

(** [json.Unmarshal(data, &v)] with [v] an [interface{}]: the whole text is
    one value, with white space around it at most.  [None] is an error. *)
Definition Unmarshal (data : string) : option value :=
  match read_top data with
  | Some (v, rest) =>
      match skip_space rest with
      | EmptyString => Some v
      | _ => None
      end
  | None => None
  end.

(** [json.NewDecoder(body).Decode(&v)]: the first value of the stream.  An
    array or object ends at its closing bracket; any other value has to be
    followed by white space or by the end of the stream. *)
Definition Decode (body : string) : option value :=
  match read_top body with
  | Some (v, rest) =>
      match v, rest with
      | (JArray _ | JObject _), _ => Some v
      | _, EmptyString => Some v
      | _, String c _ => if is_space c then Some v else None
      end
  | None => None
  end.

(** ** Writing *)

(** The double quote, as a string. *)
Definition dquote : string := String "034"%char EmptyString.

Definition hex_digit (n : N) : ascii :=
  (if n <? 10 then chr (48 + n) else chr (87 + n))%N.

(** One byte of a string, as [Marshal] writes it (HTML escaping on). *)
Definition escape_byte (c : ascii) : string :=
  match c with
  | "034"%char => String "\"%char dquote
  | "\"%char => "\\"
  | "008"%char => "\b"
  | "012"%char => "\f"
  | "010"%char => "\n"
  | "013"%char => "\r"
  | "009"%char => "\t"
  | _ =>
      if ((byte c <? 32) || Ascii.eqb c "<" || Ascii.eqb c ">" || Ascii.eqb c "&")%N
      then "\u00" +:+ String (hex_digit (byte c / 16))
                        (String (hex_digit (byte c mod 16)) EmptyString)
      else String c EmptyString
  end.

(** The bytes of a string between its quotes.  U+2028 and U+2029 are
    escaped; other bytes from 128 up are copied (valid UTF-8 assumed). *)
Fixpoint escape (s : string) : string :=
  match s with
  | EmptyString => EmptyString
  | String "226"%char (String "128"%char (String "168"%char r)) =>
      "\u2028" +:+ escape r
  | String "226"%char (String "128"%char (String "169"%char r)) =>
      "\u2029" +:+ escape r
  | String c r => escape_byte c +:+ escape r
  end.

Definition quote (s : string) : string := dquote +:+ escape s +:+ dquote.

Definition itoa (n : Z) : string := NilZero.string_of_int (Z.to_int n).

(** A [float64]: an integer below [1e21] is written with its digits, as Go
    does; the model's fallback for the other numbers is [<mant>e<exp10>]. *)
Definition write_float64 (f : float64) : string :=
  if (0 <=? exp10 f) && (Z.abs (mant f * 10 ^ exp10 f) <? 10 ^ 21)
  then itoa (mant f * 10 ^ exp10 f)
  else itoa (mant f) +:+ "e" +:+ itoa (exp10 f).

Fixpoint join (sep : string) (l : list string) : string :=
  match l with
  | [] => EmptyString
  | [x] => x
  | x :: l' => x +:+ sep +:+ join sep l'
  end.

(** [Marshal] writes the members of a map sorted by key. *)
Fixpoint insert_member (kv : string * string) (l : list (string * string))
  : list (string * string) :=
  match l with
  | [] => [kv]
  | kv' :: l' =>
      if String.leb kv.1 kv'.1 then kv :: l else kv' :: insert_member kv l'
  end.

Definition sort_members (l : list (string * string)) : list (string * string) :=
  foldr insert_member [] l.

Fixpoint write_value (v : value) : string :=
  match v with
  | JNull => "null"
  | JBool true => "true"
  | JBool false => "false"
  | JNumber f => write_float64 f
  | JString s => quote s
  | JArray l => "[" +:+ join "," (write_value <$> l) +:+ "]"
  | JObject o =>
      let members := sort_members (map_to_list (write_value <$> o)) in
      "{" +:+ join "," ((λ kv, quote kv.1 +:+ ":" +:+ kv.2) <$> members) +:+ "}"
  end.

(** [json.Marshal(v)] for a [v] built of the types above; it has no error
    on them, so the error branch of the callers is never taken. *)
Definition Marshal (v : value) : string + string := inl (write_value v).

End json.

Import json.

(* ===================================================================== *)
(** * Results, faults and the records of the package *)
(* ===================================================================== *)

(** An [error] is represented by its message. *)
Definition error : Type := string.

(** A Go result pair [(T, error)]: a value with a [nil] error, or a [nil]
    value with an error. *)
Inductive result (T : Type) : Type :=
| Ok (v : T)
| Err (e : error).
Arguments Ok {T} v.
Arguments Err {T} e.

(** What running a piece of code ends in: it returns, or it panics. *)
Inductive outcome (A : Type) : Type :=
| Done (a : A)
| Panicked.
Arguments Done {A} a.
Arguments Panicked {A}.

#[global] Instance outcome_ret : MRet outcome := λ A, Done.
#[global] Instance outcome_bind : MBind outcome := λ A B f m,
  match m with
  | Done a => f a
  | Panicked => Panicked
  end.

(** [StringTuple{k, v}], the element type of the header list. *)
Definition StringTuple : Type := string * string.

(** Modelled from the spec: the declarations of the argument records are in
    a file of the package that is not among the sources.  These are the
    fields that store.go reads and writes, with the types it uses them at
    (PropertyMap is [map[string]string]). *)
Module CreateStoreFctArgs.
Record t := mk {
  ClientMachine : string;
  StorePath : string;
  AgentId : string;
  Properties : gmap string string;
  PropertiesString : string
}.
Definition set_PropertiesString (s : string) (ca : t) : t :=
  mk (ClientMachine ca) (StorePath ca) (AgentId ca) (Properties ca) s.
End CreateStoreFctArgs.

(** Modelled from the spec: as [CreateStoreFctArgs], for the update. *)
Module UpdateStoreFctArgs.
Record t := mk {
  ClientMachine : string;
  StorePath : string;
  AgentId : string;
  Properties : gmap string string;
  PropertiesString : string
}.
Definition set_PropertiesString (s : string) (ua : t) : t :=
  mk (ClientMachine ua) (StorePath ua) (AgentId ua) (Properties ua) s.
End UpdateStoreFctArgs.

(** The body of a request: [nil], or a pointer to an argument record (the
    record is recorded as it is when the request is sent). *)
Inductive payload :=
| NoPayload
| CreatePayload (ca : CreateStoreFctArgs.t)
| UpdatePayload (ua : UpdateStoreFctArgs.t).

(** Modelled from the spec: the [request] record and the response of the
    transport collaborator are declared outside the sources; the fields are
    those store.go sets and reads. *)
Record request := {
  Method : string;
  Endpoint : string;
  Headers : list StringTuple;
  Payload : payload
}.

Record response := {
  StatusCode : Z;
  Body : string
}.

(** The certificate record, with the fields of the literal at
    store.go:339-349. *)
Module InventoriedCertificate.
Record t := mk {
  Id : Z;
  IssuedDN : string;
  SerialNumber : string;
  NotBefore : string;
  NotAfter : string;
  SigningAlgorithm : string;
  IssuerDN : string;
  Thumbprint : string;
  CertStoreInventoryItemId : Z
}.
(** The zero value, which fills the unused capacity of an array. *)
Definition zero : t := mk 0 "" "" "" "" "" "" "" 0.
End InventoriedCertificate.

(** A slice header: the backing array, the length and the capacity. *)
Record slice := { ptr : nat; len : nat; cap : nat }.

(** The inventory item, with the fields of the literal at store.go:329-337.
    [Certificates] is a slice header and the three sets are map references:
    copying the struct copies those, not what they refer to.  [Parameters]
    is never written after the decode, so it is kept by value. *)
Module CertStoreInventory.
Record t := mk {
  Name : string;
  CertStoreInventoryItemId : Z;
  Certificates : slice;
  Parameters : gmap string value;
  Thumbprints : nat;
  Serials : nat;
  Ids : nat
}.
Definition set_Certificates (s : slice) (i : t) : t :=
  mk (Name i) (CertStoreInventoryItemId i) s (Parameters i)
     (Thumbprints i) (Serials i) (Ids i).
End CertStoreInventory.

(* ===================================================================== *)
(** * PropertyCodec *)
(* ===================================================================== *)

(** [x.(map[string]interface{})], [x.(string)], [x.(float64)] and
    [x.([]interface{})] without the comma-ok form: a panic when [x] holds
    another type, or nothing. *)
Definition assert_map (x : value) : outcome (gmap string value) :=
  match x with JObject o => Done o | _ => Panicked end.

Definition assert_string (x : value) : outcome string :=
  match x with JString s => Done s | _ => Panicked end.

Definition assert_float64 (x : value) : outcome float64 :=
  match x with JNumber f => Done f | _ => Panicked end.

Definition assert_slice (x : value) : outcome (list value) :=
  match x with JArray l => Done l | _ => Panicked end.

(** [m[k]] on a [map[string]interface{}]: [nil] for an absent key. *)
Definition index (m : gmap string value) (k : string) : value :=
  default JNull (m !! k).

(** The loop of [unmarshalPropertiesString] (store.go:373-375) over the
    entries in the order [range] visits them. *)
Fixpoint unmarshal_entries (entries : list (string * value))
    (newMap : gmap string string) : outcome (gmap string string) :=
  match entries with
  | [] => Done newMap
  | (key, val) :: rest =>
      s ← assert_string val;
      unmarshal_entries rest (<[key := s]> newMap)
  end.

(** store.go:364-380.  The order in which [range] visits a map is not
    specified; [map_to_list] is one such order, and
    [unmarshal_entries_order] below shows that the result is the same for
    every other. *)
Definition unmarshalPropertiesString (properties : string)
  : outcome (gmap string string) :=
  if decide (properties ≠ "") then
    match Unmarshal properties with
    | None => Done ∅
    | Some tempInterface =>
        m ← assert_map tempInterface;
        unmarshal_entries (map_to_list m) ∅
    end
  else Done ∅.

(** The loop of [buildPropertiesInterface] (store.go:417-421). *)
Fixpoint build_entries (entries : list (string * string))
    (propertiesInterface : gmap string value) : gmap string value :=
  match entries with
  | [] => propertiesInterface
  | (key, val) :: rest =>
      let inside : gmap string value := <["value" := JString val]> ∅ in
      build_entries rest (<[key := JObject inside]> propertiesInterface)
  end.

(** store.go:412-424. *)
Definition buildPropertiesInterface (properties : gmap string string) : value :=
  JObject (build_entries (map_to_list properties) ∅).

(* ===================================================================== *)
(** * Validation *)
(* ===================================================================== *)

(** store.go:382-394; [None] is the [nil] error. *)
Definition validateCreateStoreArgs (ca : CreateStoreFctArgs.t) : option error :=
  if decide (CreateStoreFctArgs.ClientMachine ca = "") then
    Some "client machine is required for creation of new certificate store"
  else if decide (CreateStoreFctArgs.StorePath ca = "") then
    Some "store path is required for creation of new certificate store"
  else if decide (CreateStoreFctArgs.AgentId ca = "") then
    Some "orchestrator agent id is required for creation of new certificate store"
  else None.

(** store.go:396-408. *)
Definition validateUpdateStoreArgs (ca : UpdateStoreFctArgs.t) : option error :=
  if decide (UpdateStoreFctArgs.ClientMachine ca = "") then
    Some "client machine is required for creation of new certificate store"
  else if decide (UpdateStoreFctArgs.StorePath ca = "") then
    Some "store path is required for creation of new certificate store"
  else if decide (UpdateStoreFctArgs.AgentId ca = "") then
    Some "orchestrator agent id is required for creation of new certificate store"
  else None.

(* ===================================================================== *)
(** * The world: requests sent, and the heap of maps and arrays *)
(* ===================================================================== *)

(** [sent] lists the requests handed to the transport collaborator, oldest
    first.  [strmaps] holds the [map[string]bool] objects, [intmaps] the
    [map[int]bool] objects and [arrays] the backing arrays of
    [[]InventoriedCertificate]; a reference is a position in its list. *)
Record World := {
  sent : list request;
  strmaps : list (gmap string bool);
  intmaps : list (gmap Z bool);
  arrays : list (list InventoriedCertificate.t)
}.

Definition initial : World :=
  {| sent := []; strmaps := []; intmaps := []; arrays := [] |}.

(** Code that runs in a world: it panics, or returns a value and the world
    it leaves. *)
Definition M (A : Type) : Type := World → outcome (A * World).

#[global] Instance M_ret : MRet M := λ A a w, Done (a, w).
#[global] Instance M_bind : MBind M := λ A B f m w,
  match m w with
  | Done (a, w') => f a w'
  | Panicked => Panicked
  end.

(** A step that has no effect on the world. *)
Definition pure {A : Type} (o : outcome A) : M A := λ w,
  match o with
  | Done a => Done (a, w)
  | Panicked => Panicked
  end.

(** [make(map[string]bool)] / the literal [map[string]bool{}]. *)
Definition new_strmap : M nat := λ w,
  Done (length (strmaps w),
        {| sent := sent w; strmaps := strmaps w ++ [∅];
           intmaps := intmaps w; arrays := arrays w |}).

(** [map[int]bool{}]. *)
Definition new_intmap : M nat := λ w,
  Done (length (intmaps w),
        {| sent := sent w; strmaps := strmaps w;
           intmaps := intmaps w ++ [∅]; arrays := arrays w |}).

(** [m[k] = b] through the reference [m]. *)
Definition strmap_set (m : nat) (k : string) (b : bool) : M unit := λ w,
  match strmaps w !! m with
  | Some o =>
      Done (tt, {| sent := sent w; strmaps := <[m := <[k := b]> o]> (strmaps w);
                   intmaps := intmaps w; arrays := arrays w |})
  | None => Panicked
  end.

Definition intmap_set (m : nat) (k : Z) (b : bool) : M unit := λ w,
  match intmaps w !! m with
  | Some o =>
      Done (tt, {| sent := sent w; strmaps := strmaps w;
                   intmaps := <[m := <[k := b]> o]> (intmaps w);
                   arrays := arrays w |})
  | None => Panicked
  end.

(** A new backing array with the given cells. *)
Definition new_array (cells : list InventoriedCertificate.t) : M nat := λ w,
  Done (length (arrays w),
        {| sent := sent w; strmaps := strmaps w; intmaps := intmaps w;
           arrays := arrays w ++ [cells] |}).

(** The literal [[]InventoriedCertificate{}]: length and capacity zero. *)
Definition empty_slice : M slice :=
  p ← new_array [];
  mret {| ptr := p; len := 0; cap := 0 |}.

(** The elements a slice header shows in a world. *)
Definition slice_elems (w : World) (s : slice) : list InventoriedCertificate.t :=
  take (len s) (default [] (arrays w !! ptr s)).

Section Client.

(** The capacity the run time picks when [append] has to move a slice of
    the given capacity.  The language promises only that the new array is
    large enough, so the policy is left open; [append] below takes at least
    the length it needs. *)
Variable growslice : nat → nat.

(** Modelled from the spec: the transport collaborator ([sendRequest], in
    a file that is not among the sources) builds the HTTP request, runs it
    and returns the response or an error.  [transport] is what it answers to
    a request, given the requests sent before. *)
Variable transport : list request → request → result response.

(** Modelled from the spec: the response records of create and update are
    declared outside the sources; [decode...] stands for
    [json.NewDecoder(resp.Body).Decode] into a pointer to one. *)
Variable CreateStoreResponse : Type.
Variable decodeCreateStoreResponse : string → result CreateStoreResponse.
Variable UpdateStoreResponse : Type.
Variable decodeUpdateStoreResponse : string → result UpdateStoreResponse.

(** [append(s, x)] (store.go:350): in place when the capacity allows it,
    otherwise into a new, larger array that receives the elements of [s]. *)
Definition append (s : slice) (x : InventoriedCertificate.t) : M slice := λ w,
  match arrays w !! ptr s with
  | None => Panicked
  | Some a =>
      if (len s <? cap s)%nat then
        Done ({| ptr := ptr s; len := S (len s); cap := cap s |},
              {| sent := sent w; strmaps := strmaps w; intmaps := intmaps w;
                 arrays := <[ptr s := <[len s := x]> a]> (arrays w) |})
      else
        let newcap := (S (len s) `max` growslice (cap s))%nat in
        let cells := take (len s) a ++ [x]
                     ++ replicate (newcap - S (len s)) InventoriedCertificate.zero in
        Done ({| ptr := length (arrays w); len := S (len s); cap := newcap |},
              {| sent := sent w; strmaps := strmaps w; intmaps := intmaps w;
                 arrays := arrays w ++ [cells] |})
  end.

(** [c.sendRequest(r)]: the request goes out and the collaborator answers. *)
Definition sendRequest (r : request) : M (result response) := λ w,
  Done (transport (sent w) r,
        {| sent := sent w ++ [r]; strmaps := strmaps w; intmaps := intmaps w;
           arrays := arrays w |}).

(** The two headers every operation sets. *)
Definition apiHeaders : list StringTuple :=
  [("x-keyfactor-api-version", "1"); ("x-keyfactor-requested-with", "APIClient")].

(* ===================================================================== *)
(** * StoreOperations *)
(* ===================================================================== *)

(** store.go:19-65.  [ca] is a pointer in Go and the function writes
    [PropertiesString] through it, so the record is returned next to the
    result.  (Log output is not modelled.) *)
Definition CreateStore (ca : CreateStoreFctArgs.t)
  : M (result CreateStoreResponse * CreateStoreFctArgs.t) :=
  match validateCreateStoreArgs ca with
  | Some err => mret (Err err, ca)
  | None =>
      let encoded : CreateStoreFctArgs.t + error :=
        if decide (CreateStoreFctArgs.PropertiesString ca = "") then
          let propertiesInterface :=
            buildPropertiesInterface (CreateStoreFctArgs.Properties ca) in
          match Marshal propertiesInterface with
          | inl propertiesJson =>
              inl (CreateStoreFctArgs.set_PropertiesString propertiesJson ca)
          | inr err => inr err
          end
        else inl ca in
      match encoded with
      | inr err => mret (Err err, ca)
      | inl ca =>
          let keyfactorAPIStruct :=
            {| Method := "POST"; Endpoint := "CertificateStores";
               Headers := apiHeaders; Payload := CreatePayload ca |} in
          r ← sendRequest keyfactorAPIStruct;
          match r with
          | Err err => mret (Err err, ca)
          | Ok resp => mret (decodeCreateStoreResponse (Body resp), ca)
          end
      end
  end.

(** store.go:75-121. *)
Definition UpdateStore (ua : UpdateStoreFctArgs.t)
  : M (result UpdateStoreResponse * UpdateStoreFctArgs.t) :=
  match validateUpdateStoreArgs ua with
  | Some err => mret (Err err, ua)
  | None =>
      let encoded : UpdateStoreFctArgs.t + error :=
        if decide (UpdateStoreFctArgs.PropertiesString ua = "") then
          let propertiesInterface :=
            buildPropertiesInterface (UpdateStoreFctArgs.Properties ua) in
          match Marshal propertiesInterface with
          | inl propertiesJson =>
              inl (UpdateStoreFctArgs.set_PropertiesString propertiesJson ua)
          | inr err => inr err
          end
        else inl ua in
      match encoded with
      | inr err => mret (Err err, ua)
      | inl ua =>
          let keyfactorAPIStruct :=
            {| Method := "Put"; Endpoint := "CertificateStores";
               Headers := apiHeaders; Payload := UpdatePayload ua |} in
          r ← sendRequest keyfactorAPIStruct;
          match r with
          | Err err => mret (Err err, ua)
          | Ok resp => mret (decodeUpdateStoreResponse (Body resp), ua)
          end
      end
  end.

(** [http.StatusNoContent]. *)
Definition StatusNoContent : Z := 204.

(** [fmt.Errorf("[ERROR] Something unexpected happened, %s call to %s
    returned status %d", method, endpoint, status)]. *)
Definition unexpected_status (method endpoint : string) (status : Z) : error :=
  "[ERROR] Something unexpected happened, " +:+ method +:+ " call to "
    +:+ endpoint +:+ " returned status " +:+ itoa status.

(** store.go:125-152; [None] is the [nil] error. *)
Definition DeleteCertificateStore (storeId : string) : M (option error) :=
  let endpoint := "CertificateStores/" +:+ storeId in
  let keyfactorAPIStruct :=
    {| Method := "DELETE"; Endpoint := endpoint;
       Headers := apiHeaders; Payload := NoPayload |} in
  r ← sendRequest keyfactorAPIStruct;
  match r with
  | Err err => mret (Some err)
  | Ok resp =>
      if decide (StatusCode resp ≠ StatusNoContent) then
        mret (Some (unexpected_status (Method keyfactorAPIStruct)
                      (Endpoint keyfactorAPIStruct) (StatusCode resp)))
      else mret None
  end.

(* ===================================================================== *)
(** * InventoryDecoder *)
(* ===================================================================== *)

(** [x.(map[string]interface{})[k]]. *)
Definition field (x : value) (k : string) : outcome value :=
  m ← assert_map x;
  mret (index m k).

(** The literal [InventoriedCertificate{...}] of store.go:339-349. *)
Definition iCert_of (cert : value) : outcome InventoriedCertificate.t :=
  id ← field cert "Id" ≫= assert_float64;
  issuedDN ← field cert "IssuedDN" ≫= assert_string;
  serialNumber ← field cert "SerialNumber" ≫= assert_string;
  notBefore ← field cert "NotBefore" ≫= assert_string;
  notAfter ← field cert "NotAfter" ≫= assert_string;
  signingAlgorithm ← field cert "SigningAlgorithm" ≫= assert_string;
  issuerDN ← field cert "IssuerDN" ≫= assert_string;
  thumbprint ← field cert "Thumbprint" ≫= assert_string;
  itemId ← field cert "CertStoreInventoryItemId" ≫= assert_float64;
  mret (InventoriedCertificate.mk (int_of_float64 id) issuedDN serialNumber
          notBefore notAfter signingAlgorithm issuerDN thumbprint
          (int_of_float64 itemId)).

(** The inner loop, store.go:338-355.  [invC] is the local struct and
    [invResp] the result so far; [append(invResp, invC)] stores a copy of
    the struct as it is at that moment, that is, its slice header and its
    three map references.  ([invResp] itself has no other holder while the
    function runs, so it is a list.) *)
Fixpoint range_certificates (certs : list value) (invC : CertStoreInventory.t)
    (invResp : list CertStoreInventory.t)
  : M (CertStoreInventory.t * list CertStoreInventory.t) :=
  match certs with
  | [] => mret (invC, invResp)
  | cert :: rest =>
      iCert ← pure (iCert_of cert);
      s ← append (CertStoreInventory.Certificates invC) iCert;
      let invC := CertStoreInventory.set_Certificates s invC in
      thumbprint ← pure (field cert "Thumbprint" ≫= assert_string);
      _ ← strmap_set (CertStoreInventory.Thumbprints invC) thumbprint true;
      serialNumber ← pure (field cert "SerialNumber" ≫= assert_string);
      _ ← strmap_set (CertStoreInventory.Serials invC) serialNumber true;
      id ← pure (field cert "Id" ≫= assert_float64);
      _ ← intmap_set (CertStoreInventory.Ids invC) (int_of_float64 id) true;
      let invResp := invResp ++ [invC] in
      range_certificates rest invC invResp
  end.

(** One pass of the outer loop, store.go:325-355. *)
Definition stored_cert (storedCert : value) (invResp : list CertStoreInventory.t)
  : M (list CertStoreInventory.t) :=
  p ← pure (field storedCert "Parameters");
  let params : gmap string value :=
    match p with JObject o => o | _ => ∅ end in
  name ← pure (field storedCert "Name" ≫= assert_string);
  itemId ← pure (field storedCert "CertStoreInventoryItemId" ≫= assert_float64);
  certificates ← empty_slice;
  thumbprints ← new_strmap;
  serials ← new_strmap;
  ids ← new_intmap;
  let invC := CertStoreInventory.mk name (int_of_float64 itemId) certificates
                params thumbprints serials ids in
  certs ← pure (field storedCert "Certificates" ≫= assert_slice);
  r ← range_certificates certs invC invResp;
  mret r.2.

(** The outer loop, store.go:324-356. *)
Fixpoint range_stored_certs (jsonResp : list value)
    (invResp : list CertStoreInventory.t) : M (list CertStoreInventory.t) :=
  match jsonResp with
  | [] => mret invResp
  | storedCert :: rest =>
      invResp ← stored_cert storedCert invResp;
      range_stored_certs rest invResp
  end.

(** The errors of encoding/json stand for themselves; their text is not
    modelled beyond telling a syntax error from a type error. *)
Definition json_syntax_error : error := "json: syntax error".
Definition json_type_error : error :=
  "json: cannot unmarshal into Go value of type []interface {}".

(** [Decode(&jsonResp)] with [jsonResp] a nil [[]interface{}]: an array
    fills it, [null] leaves it nil, any other value is a type error. *)
Definition decode_slice (body : string) : result (list value) :=
  match Decode body with
  | None => Err json_syntax_error
  | Some (JArray l) => Ok l
  | Some JNull => Ok []
  | Some _ => Err json_type_error
  end.

(** store.go:290-361.  The result is the slice behind the returned
    pointer. *)
Definition GetCertStoreInventory (storeId : string)
  : M (result (list CertStoreInventory.t)) :=
  let endpoint := "CertificateStores/" +:+ storeId +:+ "/Inventory" in
  let keyfactorAPIStruct :=
    {| Method := "GET"; Endpoint := endpoint;
       Headers := apiHeaders; Payload := NoPayload |} in
  r ← sendRequest keyfactorAPIStruct;
  match r with
  | Err err => mret (Err err)
  | Ok resp =>
      match decode_slice (Body resp) with
      | Err err => mret (Err err)
      | Ok jsonResp =>
          if decide (length jsonResp = 0%nat) then mret (Ok [])
          else
            invResp ← range_stored_certs jsonResp [];
            mret (Ok invResp)
      end
  end.

End Client.

(** What a caller reads in an item of the result: the certificates its
    slice header shows and the contents of the three maps it refers to. *)
Record InventoryItem := {
  itemName : string;
  itemId : Z;
  itemCertificates : list InventoriedCertificate.t;
  itemParameters : gmap string value;
  itemThumbprints : gmap string bool;
  itemSerials : gmap string bool;
  itemIds : gmap Z bool
}.

Definition read_item (w : World) (i : CertStoreInventory.t) : InventoryItem :=
  {| itemName := CertStoreInventory.Name i;
     itemId := CertStoreInventory.CertStoreInventoryItemId i;
     itemCertificates := slice_elems w (CertStoreInventory.Certificates i);
     itemParameters := CertStoreInventory.Parameters i;
     itemThumbprints := default ∅ (strmaps w !! CertStoreInventory.Thumbprints i);
     itemSerials := default ∅ (strmaps w !! CertStoreInventory.Serials i);
     itemIds := default ∅ (intmaps w !! CertStoreInventory.Ids i) |}.

(** The inventory a call returns, as its caller reads it: [None] when the
    call panics. *)
Definition inventory_of (o : outcome (result (list CertStoreInventory.t) * World))
  : option (result (list InventoryItem)) :=
  match o with
  | Panicked => None
  | Done (Err e, _) => Some (Err e)
  | Done (Ok items, w) => Some (Ok (read_item w <$> items))
  end.

(* ===================================================================== *)
(** * Definitions used to state the properties *)
(* ===================================================================== *)

(** The read-side flat wire form of a PropertyMap, as a JSON value: the
    object that maps each property name to its value, a JSON string. *)
Definition flat_form (m : gmap string string) : value := JObject (JString <$> m).

(** The write-side record [{value: v}]. *)
Definition value_record (v : string) : value :=
  JObject (<["value" := JString v]> ∅).


(** A property as [Marshal] writes it on the write side:
    ["name":{"value":"text"}]. *)
Definition write_property (kv : string * string) : string :=
  quote kv.1 +:+ ":" +:+ "{" +:+ quote "value" +:+ ":" +:+ quote kv.2 +:+ "}".

(** [sub] occurs in [s]. *)
Definition includes (sub s : string) : Prop :=
  ∃ before after, s = before +:+ sub +:+ after.

(** The request [DeleteCertificateStore] sends for a store. *)
Definition delete_request (storeId : string) : request :=
  {| Method := "DELETE"; Endpoint := "CertificateStores/" +:+ storeId;
     Headers := apiHeaders; Payload := NoPayload |}.

(** The world after one more request. *)
Definition after_request (r : request) (w : World) : World :=
  {| sent := sent w ++ [r]; strmaps := strmaps w; intmaps := intmaps w;
     arrays := arrays w |}.

(** The messages of the three validation failures. *)
Definition client_machine_required : error :=
  "client machine is required for creation of new certificate store".
Definition store_path_required : error :=
  "store path is required for creation of new certificate store".
Definition agent_id_required : error :=
  "orchestrator agent id is required for creation of new certificate store".

(** The message owed to the first missing field, in the order client
    machine, store path, agent id. *)
Definition first_missing (clientMachine storePath agentId : string) : error :=
  if decide (clientMachine = "") then client_machine_required
  else if decide (storePath = "") then store_path_required
  else agent_id_required.

(** A transport that answers every request with one response. *)
Definition answering (resp : response) : list request → request → result response :=
  λ _ _, Ok resp.

(** A decoder of response bodies that keeps the body as it is. *)
Definition raw_body (body : string) : result string := Ok body.

(** The map that holds [true] at each key of a list, added to a map. *)
Definition add_all `{Countable K} (l : list K) (m : gmap K bool) : gmap K bool :=
  foldl (λ m k, <[k := true]> m) m l.

Definition set_of `{Countable K} (l : list K) : gmap K bool := add_all l ∅.

(** An element of the inventory payload, read with the assertions the
    decoder makes on it (store.go:325-349): a panic where one of them
    fails. *)
Record Slot := {
  slotName : string;
  slotItemId : Z;
  slotParameters : gmap string value;
  slotCertificates : list InventoriedCertificate.t
}.

Definition slot_of (storedCert : value) : outcome Slot :=
  p ← field storedCert "Parameters";
  name ← field storedCert "Name" ≫= assert_string;
  itemId ← field storedCert "CertStoreInventoryItemId" ≫= assert_float64;
  certs ← field storedCert "Certificates" ≫= assert_slice;
  certificates ← mapM iCert_of certs;
  mret {| slotName := name; slotItemId := int_of_float64 itemId;
          slotParameters := match p with JObject o => o | _ => ∅ end;
          slotCertificates := certificates |}.

(** The item of a slot that lists the given certificates, with the sets of
    all the certificates of the slot. *)
Definition slot_item (sl : Slot) (listed : list InventoriedCertificate.t)
  : InventoryItem :=
  {| itemName := slotName sl;
     itemId := slotItemId sl;
     itemCertificates := listed;
     itemParameters := slotParameters sl;
     itemThumbprints :=
       set_of (InventoriedCertificate.Thumbprint <$> slotCertificates sl);
     itemSerials :=
       set_of (InventoriedCertificate.SerialNumber <$> slotCertificates sl);
     itemIds := set_of (InventoriedCertificate.Id <$> slotCertificates sl) |}.

(** What the decoder returns for a slot of [n] certificates: [n] items, the
    [k]-th of which lists the first [k] certificates. *)
Definition slot_items (sl : Slot) : list InventoryItem :=
  (λ k, slot_item sl (take k (slotCertificates sl)))
    <$> seq 1 (length (slotCertificates sl)).

(** What the specification describes for a slot of [n] certificates: [n]
    items, each of which lists all the certificates of the slot. *)
Definition slot_items_as_specified (sl : Slot) : list InventoryItem :=
  replicate (length (slotCertificates sl)) (slot_item sl (slotCertificates sl)).

(** The invariant of the specification on an item: each of the three sets
    is the set of the corresponding fields of the listed certificates. *)
Definition sets_match_certificates (i : InventoryItem) : Prop :=
  itemThumbprints i
    = set_of (InventoriedCertificate.Thumbprint <$> itemCertificates i)
  ∧ itemSerials i
    = set_of (InventoriedCertificate.SerialNumber <$> itemCertificates i)
  ∧ itemIds i = set_of (InventoriedCertificate.Id <$> itemCertificates i).

(** The request [GetCertStoreInventory] sends for a store. *)
Definition inventory_request (storeId : string) : request :=
  {| Method := "GET";
     Endpoint := "CertificateStores/" +:+ storeId +:+ "/Inventory";
     Headers := apiHeaders; Payload := NoPayload |}.

(** The run-time policy that doubles the capacity, as Go does for small
    slices. *)
Definition doubling (oldcap : nat) : nat := (2 * oldcap)%nat.

(** ** Invariants of the heap used in the proofs *)

(** A slice header points into an allocated array that has its capacity. *)
Definition slice_ok (w : World) (s : slice) : Prop :=
  ∃ a, arrays w !! ptr s = Some a ∧ (len s ≤ cap s)%nat ∧ (cap s ≤ length a)%nat.

(** [t] is a header made before the current slice [s] was extended: it
    points to an allocated array, and where it shares the array of [s] it
    is no longer than [s]. *)
Definition older (w : World) (s t : slice) : Prop :=
  (ptr t < length (arrays w))%nat ∧ (ptr t = ptr s → (len t ≤ len s)%nat).

(** The references of an item are allocated in the world. *)
Definition item_in (w : World) (i : CertStoreInventory.t) : Prop :=
  (CertStoreInventory.Thumbprints i < length (strmaps w))%nat
  ∧ (CertStoreInventory.Serials i < length (strmaps w))%nat
  ∧ (CertStoreInventory.Ids i < length (intmaps w))%nat
  ∧ (ptr (CertStoreInventory.Certificates i) < length (arrays w))%nat.

Definition strmap_at (w : World) (r : nat) : gmap string bool :=
  default ∅ (strmaps w !! r).

Definition intmap_at (w : World) (r : nat) : gmap Z bool :=
  default ∅ (intmaps w !! r).

(** What a caller reads in a copy of the struct of the current slot. *)
Definition read_copy (invC : CertStoreInventory.t)
    (listed : list InventoriedCertificate.t)
    (thumbprints serials : gmap string bool) (ids : gmap Z bool) : InventoryItem :=
  {| itemName := CertStoreInventory.Name invC;
     itemId := CertStoreInventory.CertStoreInventoryItemId invC;
     itemCertificates := listed;
     itemParameters := CertStoreInventory.Parameters invC;
     itemThumbprints := thumbprints;
     itemSerials := serials;
     itemIds := ids |}.

(** ** Example payloads *)

(** The JSON texts of the examples are written with an apostrophe where
    JSON has a double quote; [requote] puts the double quotes in. *)
Fixpoint requote (s : string) : string :=
  match s with
  | EmptyString => EmptyString
  | String c r =>
      String (if Ascii.eqb c "'"%char then "034"%char else c) (requote r)
  end.

(** The body of an inventory response with one slot that holds two
    certificates. *)
Definition two_certificates_body : string :=
  requote
    ("[{'Name':'web','CertStoreInventoryItemId':7,'Certificates':["
  +:+ "{'Id':1,'IssuedDN':'CN=a','SerialNumber':'0A',"
  +:+ "'NotBefore':'2024-01-01','NotAfter':'2025-01-01',"
  +:+ "'SigningAlgorithm':'SHA256withRSA','IssuerDN':'CN=ca',"
  +:+ "'Thumbprint':'T1','CertStoreInventoryItemId':7},"
  +:+ "{'Id':2,'IssuedDN':'CN=b','SerialNumber':'0B',"
  +:+ "'NotBefore':'2024-01-01','NotAfter':'2025-01-01',"
  +:+ "'SigningAlgorithm':'SHA256withRSA','IssuerDN':'CN=ca',"
  +:+ "'Thumbprint':'T2','CertStoreInventoryItemId':7}]}]").

Definition certificate_a : InventoriedCertificate.t :=
  InventoriedCertificate.mk 1 "CN=a" "0A" "2024-01-01" "2025-01-01"
    "SHA256withRSA" "CN=ca" "T1" 7.

Definition certificate_b : InventoriedCertificate.t :=
  InventoriedCertificate.mk 2 "CN=b" "0B" "2024-01-01" "2025-01-01"
    "SHA256withRSA" "CN=ca" "T2" 7.

Definition two_certificates_slot : Slot :=
  {| slotName := "web"; slotItemId := 7; slotParameters := ∅;
     slotCertificates := [certificate_a; certificate_b] |}.

(** The body of an inventory response with a slot that holds no
    certificate between two slots that hold one each. *)
Definition empty_slot_body : string :=
  requote
    ("[{'Name':'first','CertStoreInventoryItemId':1,'Certificates':["
  +:+ "{'Id':1,'IssuedDN':'CN=a','SerialNumber':'0A',"
  +:+ "'NotBefore':'2024-01-01','NotAfter':'2025-01-01',"
  +:+ "'SigningAlgorithm':'SHA256withRSA','IssuerDN':'CN=ca',"
  +:+ "'Thumbprint':'T1','CertStoreInventoryItemId':7}]},"
  +:+ "{'Name':'empty','CertStoreInventoryItemId':2,"
  +:+ "'Parameters':{'Alias':'x'},'Certificates':[]},"
  +:+ "{'Name':'last','CertStoreInventoryItemId':3,'Certificates':["
  +:+ "{'Id':2,'IssuedDN':'CN=b','SerialNumber':'0B',"
  +:+ "'NotBefore':'2024-01-01','NotAfter':'2025-01-01',"
  +:+ "'SigningAlgorithm':'SHA256withRSA','IssuerDN':'CN=ca',"
  +:+ "'Thumbprint':'T2','CertStoreInventoryItemId':7}]}]").

(** The elements of a body that decodes to an array, and nothing
    otherwise. *)
Definition elements_of (body : string) : list value :=
  match decode_slice body with
  | Ok l => l
  | Err _ => []
  end.

(** The slots of a payload whose elements all pass the assertions. *)
Definition slots_of (jsonResp : list value) : list Slot :=
  match mapM slot_of jsonResp with
  | Done slots => slots
  | Panicked => []
  end.

(* ===================================================================== *)
(** * More store operations: list and get by id (store.go:154-222) *)
(* ===================================================================== *)

(** Modelled from the spec: the record [GetStoreByIDResp] is declared
    outside the sources.  store.go reads its [PropertiesString] and writes
    its [Properties]; the fields it does not touch are [Others]. *)
Module GetStoreByIDResp.
Record t (Others : Type) := mk {
  PropertiesString : string;
  Properties : gmap string string;
  OtherFields : Others
}.
Arguments mk {Others} _ _ _.
Arguments PropertiesString {Others} _.
Arguments Properties {Others} _.
Arguments OtherFields {Others} _.
Definition set_Properties {Others : Type} (m : gmap string string) (r : t Others)
  : t Others :=
  mk (PropertiesString r) m (OtherFields r).
End GetStoreByIDResp.

(** [http.StatusOK]. *)
Definition StatusOK : Z := 200.

Section MoreStoreOperations.

Variable transport : list request → request → result response.

(** Modelled from the spec: the element type of the list of stores is
    declared outside the sources; [decodeCertificateStores] stands for
    [json.NewDecoder(resp.Body).Decode] into a nil slice of it, and
    [decodeStoreByID] for the same into a pointer to a [GetStoreByIDResp]:
    [Some] of the record it fills, or [None] when it leaves the pointer nil
    (the body [null]). *)
Variable GetCertificateStoreResponse : Type.
Variable decodeCertificateStores : string → result (list GetCertificateStoreResponse).
Variable Others : Type.
Variable decodeStoreByID : string → result (option (GetStoreByIDResp.t Others)).

(** store.go:157-188.  Go returns a pointer and an error, and here both can
    be set: the first component is [None] for the nil pointer and [Some l]
    for a pointer to the slice [l]; the second is [None] for the nil
    error. *)
Definition ListCertificateStores
  : M (option (list GetCertificateStoreResponse) * option error) :=
  let endpoint := "CertificateStores/" in
  let keyfactorAPIStruct :=
    {| Method := "GET"; Endpoint := endpoint;
       Headers := apiHeaders; Payload := NoPayload |} in
  r ← sendRequest transport keyfactorAPIStruct;
  match r with
  | Err err => mret (Some [], Some err)
  | Ok resp =>
      if decide (StatusCode resp ≠ StatusOK) then
        mret (Some [],
              Some (unexpected_status (Method keyfactorAPIStruct)
                      (Endpoint keyfactorAPIStruct) (StatusCode resp)))
      else
        match decodeCertificateStores (Body resp) with
        | Err err => mret (None, Some err)
        | Ok jsonResp => mret (Some jsonResp, None)
        end
  end.

(** store.go:193-222.  Reading [jsonResp.PropertiesString] through a nil
    pointer panics, and so does the call of [unmarshalPropertiesString]
    when it panics. *)
Definition GetCertificateStoreByID (storeId : string)
  : M (result (GetStoreByIDResp.t Others)) :=
  let endpoint := "CertificateStores/" +:+ storeId in
  let keyfactorAPIStruct :=
    {| Method := "GET"; Endpoint := endpoint;
       Headers := apiHeaders; Payload := NoPayload |} in
  r ← sendRequest transport keyfactorAPIStruct;
  match r with
  | Err err => mret (Err err)
  | Ok resp =>
      match decodeStoreByID (Body resp) with
      | Err err => mret (Err err)
      | Ok None => pure Panicked
      | Ok (Some jsonResp) =>
          properties ← pure (unmarshalPropertiesString
                               (GetStoreByIDResp.PropertiesString jsonResp));
          mret (Ok (GetStoreByIDResp.set_Properties properties jsonResp))
      end
  end.

End MoreStoreOperations.

(* ===================================================================== *)
(** * Store types (store_type.go) *)
(* ===================================================================== *)

(** The dynamic type of the [interface{}] argument of
    [GetCertificateStoreType]: an [int], a [string], or anything else. *)
Inductive any :=
| AnyInt (n : Z)
| AnyString (s : string)
| AnyOther.

(** The conversion [int32(id)] of an [int]: the low 32 bits, signed. *)
Definition int32 (id : Z) : Z := (id + 2 ^ 31) mod 2 ^ 32 - 2 ^ 31.

(** The result of a deletion, [DeleteStoreType{ID: id}]. *)
Record DeleteStoreType := { ID : Z }.

Section StoreTypes.

(** Modelled from the spec: the generated SDK client
    (keyfactor-go-client-sdk) and the record [CertificateStoreType] are
    outside the sources.  [SdkStoreType] is the SDK's store type and
    [reshape] is the conversion the functions apply to it ([ToMap],
    [json.Marshal], then [json.Unmarshal] into a zero
    [CertificateStoreType], the three errors dropped).  Each [sdk_...] is
    what [Execute] returns for a request built with the given arguments and
    the two header values, the HTTP response left out where the code drops
    it. *)
Variable SdkStoreType : Type.
Variable CertificateStoreType : Type.
Variable reshape : SdkStoreType → CertificateStoreType.

(** The zero request of the SDK after [json.Marshal] and [json.Unmarshal]
    onto itself. *)
Variable SdkCreationRequest : Type.
Variable creationRequest : SdkCreationRequest.
Variable SdkUpdateRequest : Type.
Variable updateRequest : SdkUpdateRequest.

Variable sdk_get_by_name : string → string → string → result (list SdkStoreType).
Variable sdk_get_by_id : Z → string → string → result SdkStoreType.
Variable sdk_get_types : string → string → result (list SdkStoreType).
Variable sdk_create : SdkCreationRequest → string → string → result SdkStoreType.
Variable sdk_update : SdkUpdateRequest → string → string → result SdkStoreType.

(** The HTTP response of a deletion: its status, and what [%s] prints for
    its body. *)
Variable sdk_delete : Z → string → string → result (Z * string).

Definition xKeyfactorRequestedWith : string := "APIClient".
Definition xKeyfactorApiVersion : string := "1".

(** The loop of store_type.go:41-47 and 95-101. *)
Fixpoint reshape_each (resp : list SdkStoreType)
    (newResp : list CertificateStoreType) : list CertificateStoreType :=
  match resp with
  | [] => newResp
  | r :: rest => reshape_each rest (newResp ++ [reshape r])
  end.

(** store_type.go:26-53. *)
Definition GetCertificateStoreTypeByName (name : string)
  : result CertificateStoreType :=
  match sdk_get_by_name name xKeyfactorRequestedWith xKeyfactorApiVersion with
  | Err err => Err err
  | Ok resp =>
      match reshape_each resp [] with
      | v :: _ => Ok v
      | [] => Err "no certificate store type found with the given name"
      end
  end.

(** store_type.go:57-77. *)
Definition GetCertificateStoreTypeById (id : Z) : result CertificateStoreType :=
  match sdk_get_by_id (int32 id) xKeyfactorRequestedWith xKeyfactorApiVersion with
  | Err err => Err err
  | Ok resp => Ok (reshape resp)
  end.

(** store_type.go:13-22. *)
Definition GetCertificateStoreType (id : any) : result CertificateStoreType :=
  match id with
  | AnyInt n => GetCertificateStoreTypeById n
  | AnyString s => GetCertificateStoreTypeByName s
  | AnyOther => Err "invalid type for id, must pass either string or integer"
  end.

(** store_type.go:80-103. *)
Definition ListCertificateStoreTypes : result (list CertificateStoreType) :=
  match sdk_get_types xKeyfactorRequestedWith xKeyfactorApiVersion with
  | Err err => Err err
  | Ok resp => Ok (reshape_each resp [])
  end.

(** store_type.go:113-138.  The request sent is built from the zero value,
    not from [ca]. *)
Definition CreateStoreType (ca : CertificateStoreType) : result CertificateStoreType :=
  let newReq := creationRequest in
  match sdk_create newReq xKeyfactorRequestedWith xKeyfactorApiVersion with
  | Err err => Err err
  | Ok resp => Ok (reshape resp)
  end.

(** store_type.go:140-165. *)
Definition UpdateStoreType (ca : CertificateStoreType) : result CertificateStoreType :=
  let newReq := updateRequest in
  match sdk_update newReq xKeyfactorRequestedWith xKeyfactorApiVersion with
  | Err err => Err err
  | Ok resp => Ok (reshape resp)
  end.

(** store_type.go:166-185. *)
Definition DeleteCertificateStoreType (id : Z) : result DeleteStoreType :=
  match sdk_delete (int32 id) xKeyfactorRequestedWith xKeyfactorApiVersion with
  | Err err => Err err
  | Ok (status, body) =>
      if decide (status ≠ 204) then
        Err ("error deleting certificate store type " +:+ itoa id +:+ ". " +:+ body)
      else Ok {| ID := id |}
  end.

End StoreTypes.

(* ===================================================================== *)
(** * Definitions used to state the further properties *)
(* ===================================================================== *)

(** The request [CreateStore] sends for an argument record. *)
Definition create_request (ca : CreateStoreFctArgs.t) : request :=
  {| Method := "POST"; Endpoint := "CertificateStores";
     Headers := apiHeaders; Payload := CreatePayload ca |}.

(** The request [UpdateStore] sends for an argument record. *)
Definition update_request (ua : UpdateStoreFctArgs.t) : request :=
  {| Method := "Put"; Endpoint := "CertificateStores";
     Headers := apiHeaders; Payload := UpdatePayload ua |}.

(** The request [ListCertificateStores] sends. *)
Definition list_request : request :=
  {| Method := "GET"; Endpoint := "CertificateStores/";
     Headers := apiHeaders; Payload := NoPayload |}.

(** The request [GetCertificateStoreByID] sends for a store. *)
Definition get_request (storeId : string) : request :=
  {| Method := "GET"; Endpoint := "CertificateStores/" +:+ storeId;
     Headers := apiHeaders; Payload := NoPayload |}.

(** The write-side text of a PropertyMap. *)
Definition write_side_text (properties : gmap string string) : string :=
  write_value (JObject (value_record <$> properties)).

(** A transport that fails every request with one error. *)
Definition failing (err : error) : list request → request → result response :=
  λ _ _, Err err.

(** A decoder of the get-by-id body that takes the body for the properties
    string of the record. *)
Definition body_as_properties (body : string)
  : result (option (GetStoreByIDResp.t unit)) :=
  Ok (Some (GetStoreByIDResp.mk body ∅ tt)).

(** A decoder of the list body that returns the body as the one store. *)
Definition body_as_store (body : string) : result (list string) := Ok [body].

(** Every listed certificate of an item has its thumbprint, serial number
    and id in the sets of the item. *)
Definition sets_cover_certificates (i : InventoryItem) : Prop :=
  ∀ c, c ∈ itemCertificates i →
    itemThumbprints i !! InventoriedCertificate.Thumbprint c = Some true
    ∧ itemSerials i !! InventoriedCertificate.SerialNumber c = Some true
    ∧ itemIds i !! InventoriedCertificate.Id c = Some true.

(** The world a call leaves, and the items it returns (nothing for a call
    that panics or returns an error). *)
Definition world_after {A : Type} (o : outcome (A * World)) : World :=
  match o with
  | Done (_, w) => w
  | Panicked => initial
  end.

Definition items_after (o : outcome (result (list CertStoreInventory.t) * World))
  : list CertStoreInventory.t :=
  match o with
  | Done (Ok items, _) => items
  | _ => []
  end.

(** Two items refer to the same three maps. *)
Definition shares_maps (a b : CertStoreInventory.t) : Prop :=
  CertStoreInventory.Thumbprints a = CertStoreInventory.Thumbprints b
  ∧ CertStoreInventory.Serials a = CertStoreInventory.Serials b
  ∧ CertStoreInventory.Ids a = CertStoreInventory.Ids b.

(** Two items have no map in common. *)
Definition separate_maps (a b : CertStoreInventory.t) : Prop :=
  CertStoreInventory.Thumbprints a ≠ CertStoreInventory.Thumbprints b
  ∧ CertStoreInventory.Thumbprints a ≠ CertStoreInventory.Serials b
  ∧ CertStoreInventory.Serials a ≠ CertStoreInventory.Thumbprints b
  ∧ CertStoreInventory.Serials a ≠ CertStoreInventory.Serials b
  ∧ CertStoreInventory.Ids a ≠ CertStoreInventory.Ids b.

(** The body of an inventory response whose only certificate has no
    thumbprint. *)
Definition missing_thumbprint_body : string :=
  requote
    ("[{'Name':'web','CertStoreInventoryItemId':7,'Certificates':["
  +:+ "{'Id':1,'IssuedDN':'CN=a','SerialNumber':'0A',"
  +:+ "'NotBefore':'2024-01-01','NotAfter':'2025-01-01',"
  +:+ "'SigningAlgorithm':'SHA256withRSA','IssuerDN':'CN=ca',"
  +:+ "'CertStoreInventoryItemId':7}]}]").

(** An SDK that knows two store types under the short name [PEM] and none
    under any other name. *)
Definition sdk_two_pem (name requestedWith apiVersion : string)
  : result (list string) :=
  if decide (name = "PEM") then Ok ["PEM-a"; "PEM-b"] else Ok [].

(** An SDK that lists three store types. *)
Definition sdk_three_types (requestedWith apiVersion : string)
  : result (list string) :=
  Ok ["JKS"; "PEM"; "F5"].

(** An SDK that knows no store type by id. *)
Definition sdk_no_id (id : Z) (requestedWith apiVersion : string) : result string :=
  Err "not found".

(** An SDK that deletes every store type. *)
Definition sdk_delete_ok (id : Z) (requestedWith apiVersion : string)
  : result (Z * string) :=
  Ok (204, "").
(* ===================================================================== *)
(** * Properties of the PropertyCodec *)
(* ===================================================================== *)

Section codec_facts.

Lemma Unmarshal_empty : Unmarshal "" = None.
Proof. reflexivity. Qed.

Lemma unmarshal_entries_panics entries acc k v :
  (k, v) ∈ entries → (∀ s, v ≠ JString s) →
  unmarshal_entries entries acc = Panicked.
Proof.
  intros Hin Hv. revert acc.
  induction entries as [|[k' v'] entries IH]; intros acc.
  - by apply elem_of_nil in Hin.
  - apply elem_of_cons in Hin as [Heq|Hin].
    + injection Heq as <- <-. destruct v; try reflexivity. by destruct (Hv s).
    + destruct v'; try reflexivity. simpl. by apply IH.
Qed.

(** [range] may visit the entries of a map in any order: the loop ends the
    same way for each of them. *)
Lemma unmarshal_entries_order entries entries' acc :
  entries ≡ₚ entries' → NoDup entries.*1 →
  unmarshal_entries entries acc = unmarshal_entries entries' acc.
Proof.
  intros Hp. revert acc.
  induction Hp as [|[k v] l l' Hp IH|[k1 v1] [k2 v2] l|l1 l2 l3 Hp1 IH1 Hp2 IH2];
    intros acc Hnd.
  - reflexivity.
  - apply NoDup_cons in Hnd as [_ Hnd].
    destruct v; try reflexivity. simpl. by apply IH.
  - assert (k1 ≠ k2) as Hne.
    { intros ->. apply NoDup_cons in Hnd as [Hn _]. apply Hn. simpl. left. }
    destruct v1, v2; try reflexivity. simpl.
    by rewrite insert_insert_ne.
  - rewrite IH1 by done. apply IH2.
    by rewrite <-Hp1.
Qed.

Lemma unmarshal_entries_strings (l : list (string * string)) acc :
  unmarshal_entries (prod_map id JString <$> l) acc
  = Done (foldl (λ m kv, <[kv.1 := kv.2]> m) acc l).
Proof.
  revert acc. induction l as [|[k v] l IH]; intros acc; [done|]. simpl. apply IH.
Qed.

Lemma foldl_insert_lookup (l : list (string * string)) (acc : gmap string string) k :
  NoDup l.*1 →
  foldl (λ m kv, <[kv.1 := kv.2]> m) acc l !! k
  = match (list_to_map l : gmap string string) !! k with
    | Some v => Some v
    | None => acc !! k
    end.
Proof.
  revert acc. induction l as [|[k0 v0] l IH]; intros acc Hnd; [done|].
  apply NoDup_cons in Hnd as [Hk0 Hnd]. simpl. rewrite IH by done.
  destruct (decide (k = k0)) as [->|Hne].
  - rewrite lookup_insert_eq.
    rewrite (not_elem_of_list_to_map_1 l k0) by done.
    by rewrite lookup_insert_eq.
  - rewrite (lookup_insert_ne (list_to_map l)) by done.
    destruct (list_to_map l !! k); [done|]. by rewrite lookup_insert_ne.
Qed.

Lemma unmarshal_flat_entries (m : gmap string string) :
  unmarshal_entries (map_to_list (JString <$> m)) ∅ = Done m.
Proof.
  rewrite (unmarshal_entries_order _ (prod_map id JString <$> map_to_list m)).
  - rewrite unmarshal_entries_strings. f_equal. apply map_eq. intros k.
    rewrite foldl_insert_lookup by apply NoDup_fst_map_to_list.
    rewrite list_to_map_to_list. by destruct (m !! k).
  - by rewrite map_to_list_fmap.
  - apply NoDup_fst_map_to_list.
Qed.

Lemma build_entries_lookup (l : list (string * string)) (acc : gmap string value) k :
  NoDup l.*1 →
  build_entries l acc !! k
  = match (list_to_map l : gmap string string) !! k with
    | Some v => Some (value_record v)
    | None => acc !! k
    end.
Proof.
  revert acc. induction l as [|[k0 v0] l IH]; intros acc Hnd; [done|].
  apply NoDup_cons in Hnd as [Hk0 Hnd]. simpl. rewrite IH by done.
  destruct (decide (k = k0)) as [->|Hne].
  - rewrite lookup_insert_eq.
    rewrite (not_elem_of_list_to_map_1 l k0) by done.
    by rewrite lookup_insert_eq.
  - rewrite (lookup_insert_ne (list_to_map l)) by done.
    destruct (list_to_map l !! k); [done|]. by rewrite lookup_insert_ne.
Qed.

Lemma buildPropertiesInterface_fmap (properties : gmap string string) :
  buildPropertiesInterface properties = JObject (value_record <$> properties).
Proof.
  unfold buildPropertiesInterface. f_equal. apply map_eq. intros k.
  rewrite build_entries_lookup by apply NoDup_fst_map_to_list.
  rewrite list_to_map_to_list, lookup_fmap. by destruct (properties !! k).
Qed.

End codec_facts.

(** C3.  Decoding the read-side flat form of a PropertyMap gives the map
    back: for every PropertyMap [m] (empty or not) and every text that
    encoding/json reads as the JSON object mapping each name of [m] to its
    string value, [unmarshalPropertiesString] returns exactly [m], and so
    does its loop in any order of visit. *)
Theorem unmarshalPropertiesString_flat_form (m : gmap string string) (s : string) :
  Unmarshal s = Some (flat_form m) →
  unmarshalPropertiesString s = Done m
  ∧ ∀ entries, entries ≡ₚ map_to_list (JString <$> m) →
      unmarshal_entries entries ∅ = Done m.
Proof.
  intros Hs. split.
  - unfold unmarshalPropertiesString.
    destruct (decide (s ≠ "")) as [_|Hempty].
    + rewrite Hs. simpl. apply unmarshal_flat_entries.
    + apply dec_stable in Hempty. subst s. by rewrite Unmarshal_empty in Hs.
  - intros entries Hp. rewrite <-(unmarshal_flat_entries m).
    symmetry. apply unmarshal_entries_order; [done|].
    apply NoDup_fst_map_to_list.
Qed.

Lemma unmarshalPropertiesString_flat_form_witness :
  unmarshalPropertiesString (requote "{'path': '/etc/ssl', 'alias': 'web'}")
  = Done (<["path" := "/etc/ssl"]> (<["alias" := "web"]> ∅)).
Proof.
  apply (unmarshalPropertiesString_flat_form
           (<["path" := "/etc/ssl"]> (<["alias" := "web"]> ∅))).
  vm_compute. reflexivity.
Defined.

(** C4.  [unmarshalPropertiesString] has no error for an empty or a
    malformed text: it returns the empty PropertyMap for the empty string
    and for every string that encoding/json fails to parse. *)
Theorem unmarshalPropertiesString_lenient (s : string) :
  s = "" ∨ Unmarshal s = None →
  unmarshalPropertiesString s = Done ∅.
Proof.
  intros [->|Hs]; [reflexivity|].
  unfold unmarshalPropertiesString. rewrite Hs. by destruct (decide (s ≠ "")).
Qed.

Lemma unmarshalPropertiesString_lenient_witness :
  unmarshalPropertiesString "" = Done ∅
  ∧ unmarshalPropertiesString (requote "{'path': '/etc/ssl'") = Done ∅.
Proof.
  split.
  - apply unmarshalPropertiesString_lenient. left. reflexivity.
  - apply unmarshalPropertiesString_lenient. right. vm_compute. reflexivity.
Defined.

(** C5.  A text that parses as a JSON object with an entry whose value is
    not a JSON string never decodes to a PropertyMap: the unchecked
    assertion [value.(string)] panics, whatever the order of the visit. *)
Theorem unmarshalPropertiesString_non_string_value
    (s : string) (o : gmap string value) (k : string) (v : value) :
  Unmarshal s = Some (JObject o) →
  o !! k = Some v →
  (∀ str, v ≠ JString str) →
  unmarshalPropertiesString s = Panicked
  ∧ ∀ entries, entries ≡ₚ map_to_list o →
      unmarshal_entries entries ∅ = Panicked.
Proof.
  intros Hs Hk Hv.
  assert (∀ entries, entries ≡ₚ map_to_list o →
            unmarshal_entries entries ∅ = Panicked) as Hall.
  { intros entries Hp. apply (unmarshal_entries_panics _ _ k v); [|done].
    rewrite Hp. by apply elem_of_map_to_list. }
  split; [|done].
  unfold unmarshalPropertiesString.
  destruct (decide (s ≠ "")) as [_|Hempty].
  - rewrite Hs. simpl. by apply Hall.
  - apply dec_stable in Hempty. subst s. by rewrite Unmarshal_empty in Hs.
Qed.

Lemma unmarshalPropertiesString_non_string_value_witness :
  unmarshalPropertiesString (requote "{'path': '/etc/ssl', 'port': 443}") = Panicked.
Proof.
  refine (proj1 (unmarshalPropertiesString_non_string_value
                   (requote "{'path': '/etc/ssl', 'port': 443}")
                   (<["path" := JString "/etc/ssl"]>
                      (<["port" := JNumber (Float64 443 0)]> ∅))
                   "port" (JNumber (Float64 443 0)) _ _ _)).
  - vm_compute. reflexivity.
  - vm_compute. reflexivity.
  - intros str. discriminate.
Defined.

(** C10.  A non-empty text that is valid JSON but not an object makes
    [unmarshalPropertiesString] panic: it returns neither a PropertyMap nor
    an error.  The text "[]" is one such input. *)
Theorem unmarshalPropertiesString_non_object (s : string) (v : value) :
  Unmarshal s = Some v →
  (∀ o, v ≠ JObject o) →
  s ≠ "" ∧ unmarshalPropertiesString s = Panicked.
Proof.
  intros Hs Hv.
  assert (s ≠ "") as Hne by (intros ->; by rewrite Unmarshal_empty in Hs).
  split; [done|].
  unfold unmarshalPropertiesString. destruct (decide (s ≠ "")); [|done].
  rewrite Hs. destruct v; try reflexivity. by destruct (Hv o).
Qed.

Lemma unmarshalPropertiesString_non_object_witness :
  Unmarshal "[]" = Some (JArray [])
  ∧ "[]" ≠ "" ∧ unmarshalPropertiesString "[]" = Panicked.
Proof.
  split; [reflexivity|].
  apply (unmarshalPropertiesString_non_object "[]" (JArray [])).
  - reflexivity.
  - intros o. discriminate.
Defined.

(* ===================================================================== *)
(** * Properties of the store operations *)
(* ===================================================================== *)

Section ops_facts.

Context (transport : list request → request → result response).
Context {CreateStoreResponse UpdateStoreResponse : Type}.
Context (decodeCreate : string → result CreateStoreResponse).
Context (decodeUpdate : string → result UpdateStoreResponse).

Lemma insert_member_fmap (f : string → string) kv l :
  insert_member (prod_map id f kv) (prod_map id f <$> l)
  = prod_map id f <$> insert_member kv l.
Proof.
  induction l as [|kv' l IH]; [done|].
  rewrite fmap_cons. cbn [insert_member]. destruct kv as [k v], kv' as [k' v'].
  simpl. destruct (String.leb k k'); [done|]. rewrite fmap_cons. f_equal. apply IH.
Qed.

Lemma sort_members_fmap (f : string → string) l :
  sort_members (prod_map id f <$> l) = prod_map id f <$> sort_members l.
Proof.
  unfold sort_members. induction l as [|kv l IH]; [done|].
  rewrite fmap_cons. cbn [foldr]. rewrite IH. apply insert_member_fmap.
Qed.

Lemma write_value_record v :
  write_value (value_record v) = "{" +:+ quote "value" +:+ ":" +:+ quote v +:+ "}".
Proof.
  unfold value_record. simpl.
  rewrite fmap_insert, fmap_empty, insert_empty, map_to_list_singleton.
  reflexivity.
Qed.

Lemma write_value_properties (m : gmap string string) :
  write_value (JObject (value_record <$> m))
  = "{" +:+ join "," (write_property <$> sort_members (map_to_list m)) +:+ "}".
Proof.
  assert ((λ kv : string * string, quote kv.1 +:+ ":" +:+ kv.2)
            <$> sort_members (map_to_list (write_value <$> (value_record <$> m)))
          = write_property <$> sort_members (map_to_list m)) as Hmembers.
  { rewrite <-map_fmap_compose, map_to_list_fmap.
    rewrite sort_members_fmap, <-list_fmap_compose.
    apply list_fmap_ext. intros _ [k v] _. unfold write_property.
    cbn [compose prod_map fst snd id].
    by rewrite write_value_record. }
  cbn [write_value]. by rewrite Hmembers.
Qed.

(** C6.  The write-side encoding: [buildPropertiesInterface] maps each
    property name to the record [{value: <its string>}] and to nothing
    else, [CreateStore] sends the serialization of that object as
    [PropertiesString] when the caller gave none, the text lists the
    properties as ["name":{"value":"text"}] between braces, and for the empty
    PropertyMap it is exactly the string [{}]. *)
Theorem write_side_encoding (ca : CreateStoreFctArgs.t) (w : World) :
  validateCreateStoreArgs ca = None →
  CreateStoreFctArgs.PropertiesString ca = "" →
  let properties := CreateStoreFctArgs.Properties ca in
  let text := write_value (JObject (value_record <$> properties)) in
  let ca' := CreateStoreFctArgs.set_PropertiesString text ca in
  let req := {| Method := "POST"; Endpoint := "CertificateStores";
                Headers := apiHeaders; Payload := CreatePayload ca' |} in
  buildPropertiesInterface properties = JObject (value_record <$> properties)
  ∧ Marshal (buildPropertiesInterface properties) = inl text
  ∧ text = "{" +:+ join "," (write_property <$> sort_members (map_to_list properties))
             +:+ "}"
  ∧ (properties = ∅ → text = "{}")
  ∧ ∃ r, CreateStore transport CreateStoreResponse decodeCreate ca w
         = Done ((r, ca'), after_request req w).
Proof.
  intros Hvalid Hnone properties text ca' req.
  split; [apply buildPropertiesInterface_fmap|].
  split; [unfold Marshal; by rewrite buildPropertiesInterface_fmap|].
  split; [apply write_value_properties|].
  split.
  { intros Hempty. unfold text. rewrite Hempty, fmap_empty. reflexivity. }
  unfold CreateStore. rewrite Hvalid.
  destruct (decide (CreateStoreFctArgs.PropertiesString ca = "")); [|done].
  unfold Marshal. rewrite buildPropertiesInterface_fmap.
  fold properties text ca' req.
  unfold mbind, M_bind, sendRequest. fold (after_request req w).
  destruct (transport (sent w) req) as [resp|err]; eauto.
Qed.

(** C7.  Create and update with an empty client machine, store path or
    agent id: each returns the error of the first missing field, the three
    messages differ from one another, and the world is left as it was, so
    no request reached the transport collaborator. *)
Theorem validation_before_transport
    (clientMachine storePath agentId : string)
    (properties : gmap string string) (propertiesString : string) (w : World) :
  clientMachine = "" ∨ storePath = "" ∨ agentId = "" →
  let ca := CreateStoreFctArgs.mk clientMachine storePath agentId
              properties propertiesString in
  let ua := UpdateStoreFctArgs.mk clientMachine storePath agentId
              properties propertiesString in
  let err := first_missing clientMachine storePath agentId in
  CreateStore transport CreateStoreResponse decodeCreate ca w
    = Done ((Err err, ca), w)
  ∧ UpdateStore transport UpdateStoreResponse decodeUpdate ua w
    = Done ((Err err, ua), w)
  ∧ client_machine_required ≠ store_path_required
  ∧ client_machine_required ≠ agent_id_required
  ∧ store_path_required ≠ agent_id_required.
Proof.
  intros Hmissing ca ua err.
  assert (validateCreateStoreArgs ca = Some err
          ∧ validateUpdateStoreArgs ua = Some err) as [Hc Hu].
  { unfold validateCreateStoreArgs, validateUpdateStoreArgs, err, first_missing.
    simpl.
    destruct (decide (clientMachine = "")); [done|].
    destruct (decide (storePath = "")); [done|].
    destruct (decide (agentId = "")); [done|].
    by destruct Hmissing as [?|[?|?]]. }
  unfold CreateStore, UpdateStore. rewrite Hc, Hu.
  repeat split; done.
Qed.

Lemma append_assoc (s1 s2 s3 : string) : (s1 +:+ s2) +:+ s3 = s1 +:+ s2 +:+ s3.
Proof.
  induction s1 as [|a s1 IH]; [done|].
  change (String a ((s1 +:+ s2) +:+ s3) = String a (s1 +:+ s2 +:+ s3)).
  by rewrite IH.
Qed.

Lemma append_empty_r (s : string) : s +:+ "" = s.
Proof.
  induction s as [|a s IH]; [done|].
  change (String a (s +:+ "") = String a s). by rewrite IH.
Qed.

Lemma includes_middle (before sub after : string) :
  includes sub (before +:+ sub +:+ after).
Proof. by exists before, after. Qed.

(** C8.  The status of the response to a delete: 204 gives no error; any
    other status gives the error whose message is built from the method
    [DELETE], the endpoint of the store and the status in decimal, each of
    which occurs in it. *)
Theorem DeleteCertificateStore_status (storeId : string) (resp : response) (w : World) :
  transport (sent w) (delete_request storeId) = Ok resp →
  let endpoint := "CertificateStores/" +:+ storeId in
  let w' := after_request (delete_request storeId) w in
  (StatusCode resp = 204 →
     DeleteCertificateStore transport storeId w = Done (None, w'))
  ∧ (StatusCode resp ≠ 204 →
     ∃ msg, DeleteCertificateStore transport storeId w = Done (Some msg, w')
       ∧ msg = "[ERROR] Something unexpected happened, DELETE call to "
                 +:+ endpoint +:+ " returned status " +:+ itoa (StatusCode resp)
       ∧ includes "DELETE" msg
       ∧ includes endpoint msg
       ∧ includes (itoa (StatusCode resp)) msg).
Proof.
  intros Hresp endpoint w'.
  assert (DeleteCertificateStore transport storeId w
          = Done (if decide (StatusCode resp ≠ StatusNoContent)
                  then Some (unexpected_status "DELETE" endpoint (StatusCode resp))
                  else None, w')) as Hrun.
  { unfold DeleteCertificateStore, mbind, M_bind, sendRequest.
    fold (delete_request storeId). rewrite Hresp.
    fold (after_request (delete_request storeId) w).
    by destruct (decide (StatusCode resp ≠ StatusNoContent)). }
  rewrite Hrun. unfold StatusNoContent. split.
  - intros H204. by destruct (decide (StatusCode resp ≠ 204)).
  - intros Hother. destruct (decide (StatusCode resp ≠ 204)); [|done].
    eexists. split; [reflexivity|]. split; [reflexivity|].
    unfold unexpected_status. split; [|split].
    + apply (includes_middle "[ERROR] Something unexpected happened, ").
    + apply (includes_middle
               "[ERROR] Something unexpected happened, DELETE call to ").
    + exists ("[ERROR] Something unexpected happened, DELETE call to "
               +:+ endpoint +:+ " returned status "), "".
      rewrite append_empty_r, !append_assoc. reflexivity.
Qed.

End ops_facts.

Lemma write_side_encoding_witness :
  Marshal (buildPropertiesInterface
             (<["alias" := "web"]> (<["path" := "/etc/ssl"]> ∅)))
  = inl (requote "{'alias':{'value':'web'},'path':{'value':'/etc/ssl'}}").
Proof.
  destruct (write_side_encoding (answering {| StatusCode := 200; Body := "{}" |})
              raw_body
              (CreateStoreFctArgs.mk "host-1" "/etc/ssl/store" "agent-1"
                 (<["alias" := "web"]> (<["path" := "/etc/ssl"]> ∅)) "")
              initial eq_refl eq_refl) as (_ & Hmarshal & _).
  etrans; [exact Hmarshal|]. vm_compute. reflexivity.
Defined.

Lemma validation_before_transport_witness :
  CreateStore (answering {| StatusCode := 200; Body := "{}" |}) string raw_body
    (CreateStoreFctArgs.mk "host-1" "" "" ∅ "") initial
  = Done ((Err store_path_required, CreateStoreFctArgs.mk "host-1" "" "" ∅ ""),
          initial).
Proof.
  apply (validation_before_transport
           (answering {| StatusCode := 200; Body := "{}" |}) raw_body raw_body
           "host-1" "" "" ∅ "" initial).
  right. left. reflexivity.
Defined.

Lemma DeleteCertificateStore_status_witness :
  ∃ msg, DeleteCertificateStore
      (answering {| StatusCode := 404; Body := "" |}) "store-7" initial
    = Done (Some msg, after_request (delete_request "store-7") initial)
    ∧ msg = "[ERROR] Something unexpected happened, DELETE call to CertificateStores/store-7 returned status 404".
Proof.
  destruct (DeleteCertificateStore_status
              (answering {| StatusCode := 404; Body := "" |}) "store-7"
              {| StatusCode := 404; Body := "" |} initial eq_refl)
    as [_ Hother].
  destruct Hother as (msg & Hrun & Hmsg & _); [discriminate|].
  exists msg. split; [exact Hrun|exact Hmsg].
Defined.

(* ===================================================================== *)
(** * Properties of the InventoryDecoder *)
(* ===================================================================== *)

Section inventory_facts.

Context (growslice : nat → nat).

(** ** The sets *)

Lemma add_all_lookup `{Countable K} (l : list K) (m : gmap K bool) k :
  add_all l m !! k = if decide (k ∈ l) then Some true else m !! k.
Proof.
  unfold add_all. revert m. induction l as [|x l IH]; intros m; cbn [foldl].
  - destruct (decide (k ∈ [])) as [Hin|_]; [|done]. by apply elem_of_nil in Hin.
  - rewrite IH. destruct (decide (k = x)) as [->|Hne].
    + rewrite lookup_insert_eq. rewrite (decide_True (P := x ∈ x :: l)) by left.
      by destruct (decide (x ∈ l)).
    + rewrite lookup_insert_ne by done.
      destruct (decide (k ∈ l)) as [Hin|Hin].
      * by rewrite decide_True by (by right).
      * rewrite decide_False; [done|]. intros [?|?]%elem_of_cons; done.
Qed.

Lemma set_of_lookup `{Countable K} (l : list K) k :
  set_of l !! k = if decide (k ∈ l) then Some true else None.
Proof. unfold set_of. by rewrite add_all_lookup, lookup_empty. Qed.

(** ** [append] *)

Lemma append_spec w s x :
  slice_ok w s →
  ∃ s' w',
    append growslice s x w = Done (s', w')
    ∧ sent w' = sent w ∧ strmaps w' = strmaps w ∧ intmaps w' = intmaps w
    ∧ slice_ok w' s'
    ∧ slice_elems w' s' = slice_elems w s ++ [x]
    ∧ (length (arrays w) ≤ length (arrays w'))%nat
    ∧ ∀ t, older w s t → older w' s' t ∧ slice_elems w' t = slice_elems w t.
Proof.
  intros (a & Ha & Hlc & Hca). unfold append. rewrite Ha.
  pose proof (lookup_lt_Some _ _ _ Ha) as Hptr.
  destruct (len s <? cap s)%nat eqn:Hroom.
  - apply Nat.ltb_lt in Hroom. eexists _, _. split; [reflexivity|].
    assert (take (S (len s)) (<[len s := x]> a) = take (len s) a ++ [x]) as Htake.
    { rewrite (take_S_r _ _ x) by (apply list_lookup_insert_eq; lia).
      by rewrite take_insert_ge by lia. }
    split; [done|]. split; [done|]. split; [done|].
    split.
    { exists (<[len s := x]> a). cbn [arrays ptr len cap].
      rewrite list_lookup_insert_eq by done.
      rewrite length_insert. split; [done|]. split; lia. }
    split.
    { unfold slice_elems. cbn [arrays ptr len cap].
      rewrite list_lookup_insert_eq by done. rewrite Ha. exact Htake. }
    split.
    { cbn [arrays]. by rewrite length_insert. }
    intros t [Ht1 Ht2]. split.
    { split; cbn [arrays ptr len cap].
      - by rewrite length_insert.
      - intros Heq. specialize (Ht2 Heq). lia. }
    unfold slice_elems. cbn [arrays ptr len cap].
    destruct (decide (ptr t = ptr s)) as [Heq|Hne].
    + rewrite Heq, list_lookup_insert_eq by done. rewrite Ha.
      apply take_insert_ge. specialize (Ht2 Heq). lia.
    + by rewrite list_lookup_insert_ne.
  - apply Nat.ltb_ge in Hroom. eexists _, _. split; [reflexivity|].
    set (newcap := (S (len s) `max` growslice (cap s))%nat).
    set (cells := take (len s) a ++ [x]
                  ++ replicate (newcap - S (len s)) InventoriedCertificate.zero).
    assert (length (take (len s) a) = len s) as Hlen by (rewrite length_take; lia).
    split; [done|]. split; [done|]. split; [done|].
    split.
    { exists cells. cbn [arrays ptr len cap].
      rewrite lookup_app_r, Nat.sub_diag by done.
      split; [done|]. split; [unfold newcap; lia|].
      unfold cells. rewrite !length_app, Hlen, length_replicate.
      cbn [length]. unfold newcap. lia. }
    split.
    { unfold slice_elems. cbn [arrays ptr len cap].
      rewrite lookup_app_r, Nat.sub_diag by done.
      rewrite Ha. cbn [lookup list_lookup default]. unfold cells, id.
      rewrite (app_assoc _ [x]).
      rewrite take_app_length'; [done|]. rewrite length_app, Hlen.
      cbn [length]. lia. }
    split.
    { cbn [arrays]. rewrite length_app. lia. }
    intros t [Ht1 Ht2]. split.
    { split; cbn [arrays ptr len cap].
      - rewrite length_app. lia.
      - intros Heq. lia. }
    unfold slice_elems. cbn [arrays ptr len cap].
    by rewrite lookup_app_l.
Qed.

(** ** The certificate literal and the three fields read again *)

Lemma outcome_bind_Done {A B} (m : outcome A) (f : A → outcome B) b :
  m ≫= f = Done b → ∃ a, m = Done a ∧ f a = Done b.
Proof. destruct m as [a|]; [eauto|discriminate]. Qed.

Lemma iCert_of_fields cert c :
  iCert_of cert = Done c →
  field cert "Thumbprint" ≫= assert_string
    = Done (InventoriedCertificate.Thumbprint c)
  ∧ field cert "SerialNumber" ≫= assert_string
    = Done (InventoriedCertificate.SerialNumber c)
  ∧ ∃ f, field cert "Id" ≫= assert_float64 = Done f
         ∧ int_of_float64 f = InventoriedCertificate.Id c.
Proof.
  unfold iCert_of. intros Hc.
  repeat (apply outcome_bind_Done in Hc as (? & ? & Hc)).
  injection Hc as <-. simpl. eauto.
Qed.

(** ** One pass of the inner loop *)

Lemma certificate_step cert c invC w :
  let s := CertStoreInventory.Certificates invC in
  let th := CertStoreInventory.Thumbprints invC in
  let se := CertStoreInventory.Serials invC in
  let ids := CertStoreInventory.Ids invC in
  iCert_of cert = Done c →
  slice_ok w s →
  (th < length (strmaps w))%nat → (se < length (strmaps w))%nat → th ≠ se →
  (ids < length (intmaps w))%nat →
  ∃ s1 w1,
    (∀ rest invResp,
       range_certificates growslice (cert :: rest) invC invResp w
       = range_certificates growslice rest
           (CertStoreInventory.set_Certificates s1 invC)
           (invResp ++ [CertStoreInventory.set_Certificates s1 invC]) w1)
    ∧ sent w1 = sent w
    ∧ slice_ok w1 s1
    ∧ slice_elems w1 s1 = slice_elems w s ++ [c]
    ∧ (length (arrays w) ≤ length (arrays w1))%nat
    ∧ (∀ t, older w s t → older w1 s1 t ∧ slice_elems w1 t = slice_elems w t)
    ∧ length (strmaps w1) = length (strmaps w)
    ∧ length (intmaps w1) = length (intmaps w)
    ∧ (∀ r, r ≠ th → r ≠ se → strmaps w1 !! r = strmaps w !! r)
    ∧ (∀ r, r ≠ ids → intmaps w1 !! r = intmaps w !! r)
    ∧ strmap_at w1 th
      = <[InventoriedCertificate.Thumbprint c := true]> (strmap_at w th)
    ∧ strmap_at w1 se
      = <[InventoriedCertificate.SerialNumber c := true]> (strmap_at w se)
    ∧ intmap_at w1 ids = <[InventoriedCertificate.Id c := true]> (intmap_at w ids).
Proof.
  intros s th se ids Hc Hs Hth Hse Hne Hids.
  destruct (iCert_of_fields _ _ Hc) as (Hthumb & Hserial & f & Hid & Hf).
  destruct (append_spec w s c Hs)
    as (s1 & wa & Happ & Hsent & Hstr & Hint & Hs1 & Helems & Hgrow & Hframe).
  destruct (lookup_lt_is_Some_2 _ _ Hth) as [mt Hmt].
  destruct (lookup_lt_is_Some_2 _ _ Hse) as [ms Hms].
  destruct (lookup_lt_is_Some_2 _ _ Hids) as [mi Hmi].
  set (w1 := {| sent := sent wa;
                strmaps := <[se := <[InventoriedCertificate.SerialNumber c := true]> ms]>
                             (<[th := <[InventoriedCertificate.Thumbprint c := true]> mt]>
                                (strmaps wa));
                intmaps := <[ids := <[InventoriedCertificate.Id c := true]> mi]>
                             (intmaps wa);
                arrays := arrays wa |}).
  exists s1, w1. split.
  { intros rest invResp. cbn [range_certificates].
    unfold mbind at 1, M_bind at 1, pure. rewrite Hc.
    unfold mbind at 1, M_bind at 1. fold s. rewrite Happ.
    unfold mbind at 1, M_bind at 1. rewrite Hthumb.
    unfold mbind at 1, M_bind at 1, strmap_set. simpl. fold th.
    rewrite Hstr, Hmt.
    unfold mbind at 1, M_bind at 1. rewrite Hserial.
    unfold mbind at 1, M_bind at 1. simpl. fold se.
    rewrite list_lookup_insert_ne, Hms by done.
    unfold mbind at 1, M_bind at 1. rewrite Hid.
    unfold mbind at 1, M_bind at 1, intmap_set. simpl. fold ids.
    rewrite Hint, Hmi, Hf. subst w1. by rewrite Hstr, Hint. }
  subst w1. unfold strmap_at, intmap_at. cbn [sent strmaps intmaps arrays].
  split; [done|]. split.
  { destruct Hs1 as (a & Ha & ?). by exists a. }
  split; [done|]. split; [done|]. split.
  { intros t Ht. destruct (Hframe t Ht) as [[Ht1 Ht2] Heq]. by repeat split. }
  split.
  { cbn [strmaps]. by rewrite !length_insert, Hstr. }
  split.
  { cbn [intmaps]. by rewrite length_insert, Hint. }
  split.
  { cbn [strmaps]. intros r Hr1 Hr2.
    by rewrite !list_lookup_insert_ne, Hstr by done. }
  split.
  { cbn [intmaps]. intros r Hr. by rewrite list_lookup_insert_ne, Hint by done. }
  split.
  { unfold strmap_at. cbn [strmaps]. rewrite list_lookup_insert_ne by done.
    rewrite list_lookup_insert_eq by (by rewrite Hstr). by rewrite Hmt. }
  split.
  { unfold strmap_at. cbn [strmaps].
    rewrite list_lookup_insert_eq by (by rewrite length_insert, Hstr).
    by rewrite Hms. }
  unfold intmap_at. cbn [intmaps].
  rewrite list_lookup_insert_eq by (by rewrite Hint). by rewrite Hmi.
Qed.

(** ** The inner loop *)

Lemma set_Certificates_same invC :
  CertStoreInventory.set_Certificates (CertStoreInventory.Certificates invC) invC
  = invC.
Proof. by destruct invC. Qed.

Lemma mapM_outcome_cons {A B} (f : A → outcome B) x l ys :
  mapM f (x :: l) = Done ys →
  ∃ y ys', f x = Done y ∧ mapM f l = Done ys' ∧ ys = y :: ys'.
Proof.
  simpl. intros Hm.
  apply outcome_bind_Done in Hm as (y & Hy & Hm).
  apply outcome_bind_Done in Hm as (ys' & Hys' & Hm).
  injection Hm as <-. eauto.
Qed.

Lemma range_certificates_spec certs : ∀ cs invC invResp w,
  let s := CertStoreInventory.Certificates invC in
  let th := CertStoreInventory.Thumbprints invC in
  let se := CertStoreInventory.Serials invC in
  let ids := CertStoreInventory.Ids invC in
  mapM iCert_of certs = Done cs →
  slice_ok w s →
  (th < length (strmaps w))%nat → (se < length (strmaps w))%nat → th ≠ se →
  (ids < length (intmaps w))%nat →
  ∃ s' w' emitted,
    range_certificates growslice certs invC invResp w
      = Done ((CertStoreInventory.set_Certificates s' invC, invResp ++ emitted), w')
    ∧ sent w' = sent w
    ∧ length (strmaps w') = length (strmaps w)
    ∧ length (intmaps w') = length (intmaps w)
    ∧ (length (arrays w) ≤ length (arrays w'))%nat
    ∧ (∀ r, r ≠ th → r ≠ se → strmaps w' !! r = strmaps w !! r)
    ∧ (∀ r, r ≠ ids → intmaps w' !! r = intmaps w !! r)
    ∧ strmap_at w' th
      = add_all (InventoriedCertificate.Thumbprint <$> cs) (strmap_at w th)
    ∧ strmap_at w' se
      = add_all (InventoriedCertificate.SerialNumber <$> cs) (strmap_at w se)
    ∧ intmap_at w' ids
      = add_all (InventoriedCertificate.Id <$> cs) (intmap_at w ids)
    ∧ (∀ t, older w s t → slice_elems w' t = slice_elems w t)
    ∧ Forall (item_in w') emitted
    ∧ read_item w' <$> emitted
      = (λ k, read_copy invC (slice_elems w s ++ take k cs)
                (strmap_at w' th) (strmap_at w' se) (intmap_at w' ids))
        <$> seq 1 (length cs).
Proof.
  induction certs as [|cert certs IH];
    intros cs invC invResp w s th se ids Hcs Hs Hth Hse Hne Hids.
  - injection Hcs as <-. exists s, w, []. subst s.
    rewrite set_Certificates_same, app_nil_r.
    split; [reflexivity|]. repeat (split; [done|]). done.
  - apply mapM_outcome_cons in Hcs as (c & cs' & Hc & Hcs' & ->).
    destruct (certificate_step cert c invC w Hc Hs Hth Hse Hne Hids)
      as (s1 & w1 & Hstep & Hsent1 & Hs1 & Helems1 & Hgrow1 & Hframe1
          & Hlstr1 & Hlint1 & Hstr1 & Hint1 & Hmt1 & Hms1 & Hmi1).
    fold s th se ids in Hstep, Helems1, Hframe1, Hstr1, Hint1, Hmt1, Hms1, Hmi1.
    set (invC1 := CertStoreInventory.set_Certificates s1 invC) in *.
    assert (CertStoreInventory.Thumbprints invC1 = th
            ∧ CertStoreInventory.Serials invC1 = se
            ∧ CertStoreInventory.Ids invC1 = ids
            ∧ CertStoreInventory.Certificates invC1 = s1) as (Eth & Ese & Eids & Es1)
      by done.
    destruct (IH cs' invC1 (invResp ++ [invC1]) w1 Hcs') as
      (s' & w' & emitted & Hrun & Hsent & Hlstr & Hlint & Hgrow
          & Hstr & Hint & Hmt & Hms & Hmi & Hframe & Hin & Hread).
    { by rewrite Es1. }
    { rewrite Eth. lia. }
    { rewrite Ese. lia. }
    { by rewrite Eth, Ese. }
    { rewrite Eids. lia. }
    rewrite Eth, Ese, Eids, Es1 in *.
    exists s', w', (invC1 :: emitted).
    assert (older w1 s1 s1) as Hself.
    { split; [|done]. destruct Hs1 as (a & Ha & _). by eapply lookup_lt_Some. }
    split.
    { rewrite Hstep, Hrun. by rewrite <-app_assoc. }
    split; [by rewrite Hsent|]. split; [by rewrite Hlstr|].
    split; [by rewrite Hlint|]. split; [lia|].
    split.
    { intros r Hr1 Hr2. by rewrite Hstr, Hstr1. }
    split.
    { intros r Hr. by rewrite Hint, Hint1. }
    split; [by rewrite Hmt, Hmt1|]. split; [by rewrite Hms, Hms1|].
    split; [by rewrite Hmi, Hmi1|].
    split.
    { intros t Ht. destruct (Hframe1 t Ht) as [Ht1 Heq1].
      by rewrite Hframe, Heq1. }
    split.
    { constructor; [|done]. unfold item_in. rewrite Eth, Ese, Eids, Es1.
      destruct Hself as [Hp _]. repeat split; lia. }
    rewrite fmap_cons. cbn [length seq]. rewrite fmap_cons, <-fmap_S_seq.
    rewrite <-list_fmap_compose. f_equal.
    + unfold read_item, read_copy. rewrite Eth, Ese, Eids, Es1.
      rewrite (Hframe s1 Hself), Helems1. reflexivity.
    + rewrite Hread. apply list_fmap_ext. intros _ k _.
      unfold read_copy. cbn [compose take]. by rewrite Helems1, <-app_assoc.
Qed.

(** ** One pass of the outer loop *)

Lemma item_in_mono w w' it :
  (length (strmaps w) ≤ length (strmaps w'))%nat →
  (length (intmaps w) ≤ length (intmaps w'))%nat →
  (length (arrays w) ≤ length (arrays w'))%nat →
  item_in w it → item_in w' it.
Proof. unfold item_in. intros ??? (?&?&?&?). repeat split; lia. Qed.

Lemma stored_cert_spec storedCert sl invResp w :
  slot_of storedCert = Done sl →
  ∃ w' emitted,
    stored_cert growslice storedCert invResp w = Done (invResp ++ emitted, w')
    ∧ sent w' = sent w
    ∧ (∀ it, item_in w it → item_in w' it ∧ read_item w' it = read_item w it)
    ∧ Forall (item_in w') emitted
    ∧ read_item w' <$> emitted = slot_items sl.
Proof.
  unfold slot_of. intros Hsl.
  apply outcome_bind_Done in Hsl as (p & Hp & Hsl).
  apply outcome_bind_Done in Hsl as (name & Hname & Hsl).
  apply outcome_bind_Done in Hsl as (itemId & HitemId & Hsl).
  apply outcome_bind_Done in Hsl as (certs & Hcerts & Hsl).
  apply outcome_bind_Done in Hsl as (cs & Hcs & Hsl).
  injection Hsl as <-.
  set (params := match p with JObject o => o | _ => ∅ end).
  set (w0 := {| sent := sent w; strmaps := (strmaps w ++ [∅]) ++ [∅];
                intmaps := intmaps w ++ [∅]; arrays := arrays w ++ [[]] |}).
  set (s0 := {| ptr := length (arrays w); len := 0; cap := 0 |}).
  set (th := length (strmaps w)).
  set (se := length (strmaps w ++ [∅])).
  set (ids := length (intmaps w)).
  set (invC := CertStoreInventory.mk name (int_of_float64 itemId) s0 params th se ids).
  assert (se = S th) as Hse by (unfold se, th; rewrite length_app; simpl; lia).
  destruct (range_certificates_spec certs cs invC invResp w0 Hcs)
    as (s' & w' & emitted & Hrun & Hsent & Hlstr & Hlint & Hgrow
        & Hstr & Hint & Hmt & Hms & Hmi & Hframe & Hin & Hread).
  { exists []. cbn [CertStoreInventory.Certificates invC arrays w0 s0 ptr len cap].
    rewrite lookup_app_r, Nat.sub_diag by done. by repeat split. }
  { cbn. rewrite !length_app. simpl. fold th. lia. }
  { cbn. rewrite !length_app. simpl. lia. }
  { cbn. fold th. lia. }
  { cbn. rewrite length_app. simpl. lia. }
  cbn [CertStoreInventory.Certificates CertStoreInventory.Thumbprints
         CertStoreInventory.Serials CertStoreInventory.Ids invC] in *.
  assert (length (strmaps w0) = S (S th)) as Hl0.
  { cbn. rewrite !length_app. simpl. fold th. lia. }
  assert (length (intmaps w0) = S ids) as Hl0'.
  { cbn. rewrite length_app. simpl. fold ids. lia. }
  assert (length (arrays w0) = S (length (arrays w))) as Hl0''.
  { cbn. rewrite length_app. simpl. lia. }
  assert (strmap_at w0 th = ∅) as Hth0.
  { unfold strmap_at. cbn [strmaps w0]. rewrite <-app_assoc. cbn [app].
    by rewrite list_lookup_middle. }
  assert (strmap_at w0 se = ∅) as Hse0.
  { unfold strmap_at. cbn [strmaps w0]. by rewrite list_lookup_middle. }
  assert (intmap_at w0 ids = ∅) as Hids0.
  { unfold intmap_at. cbn [intmaps w0]. by rewrite list_lookup_middle. }
  assert (slice_elems w0 s0 = []) as Hs0 by done.
  exists w', emitted. split.
  { unfold stored_cert.
    unfold mbind at 1, M_bind at 1, pure. rewrite Hp.
    unfold mbind at 1, M_bind at 1. rewrite Hname.
    unfold mbind at 1, M_bind at 1. rewrite HitemId.
    unfold mbind at 1, M_bind at 1, empty_slice.
    unfold mbind at 1, M_bind at 1, new_array, mret at 1, M_ret at 1.
    unfold mbind at 1, M_bind at 1, new_strmap.
    unfold mbind at 1, M_bind at 1. cbn [strmaps intmaps arrays sent].
    unfold mbind at 1, M_bind at 1, new_intmap. cbn [strmaps intmaps arrays sent].
    unfold mbind at 1, M_bind at 1. rewrite Hcerts.
    unfold mbind at 1, M_bind at 1.
    fold params s0 th se ids invC w0. by rewrite Hrun. }
  split; [by rewrite Hsent|].
  split.
  { intros it (Ht1 & Ht2 & Ht3 & Ht4). split.
    { unfold item_in. rewrite Hlstr, Hlint, Hl0, Hl0'. fold th ids in Ht1, Ht2, Ht3.
      repeat split; lia. }
    fold th in Ht1, Ht2. fold ids in Ht3.
    unfold read_item. f_equal.
    - rewrite Hframe.
      + unfold slice_elems. cbn [arrays w0]. by rewrite lookup_app_l.
      + split; [lia|]. cbn [ptr s0]. lia.
    - rewrite Hstr by lia. cbn [strmaps w0]. by rewrite !lookup_app_l
        by (rewrite ?length_app; fold th; lia).
    - rewrite Hstr by lia. cbn [strmaps w0]. by rewrite !lookup_app_l
        by (rewrite ?length_app; fold th; lia).
    - rewrite Hint by lia. cbn [intmaps w0]. by rewrite lookup_app_l. }
  split; [done|].
  rewrite Hread, Hmt, Hms, Hmi, Hth0, Hse0, Hids0, Hs0.
  unfold slot_items. cbn [slotCertificates]. apply list_fmap_ext. intros _ k _.
  reflexivity.
Qed.

(** ** The outer loop and the whole call *)

Lemma range_stored_certs_spec jsonResp : ∀ slots invResp w,
  mapM slot_of jsonResp = Done slots →
  ∃ w' emitted,
    range_stored_certs growslice jsonResp invResp w = Done (invResp ++ emitted, w')
    ∧ sent w' = sent w
    ∧ (∀ it, item_in w it → item_in w' it ∧ read_item w' it = read_item w it)
    ∧ Forall (item_in w') emitted
    ∧ read_item w' <$> emitted = slots ≫= slot_items.
Proof.
  induction jsonResp as [|storedCert rest IH]; intros slots invResp w Hslots.
  - injection Hslots as <-. exists w, []. rewrite app_nil_r.
    split; [done|]. split; [done|]. split; [by intros it Hit|]. by split.
  - apply mapM_outcome_cons in Hslots as (sl & slots' & Hsl & Hslots' & ->).
    destruct (stored_cert_spec storedCert sl invResp w Hsl)
      as (w1 & em1 & Hrun1 & Hsent1 & Hframe1 & Hin1 & Hread1).
    destruct (IH slots' (invResp ++ em1) w1 Hslots')
      as (w' & em2 & Hrun2 & Hsent2 & Hframe2 & Hin2 & Hread2).
    exists w', (em1 ++ em2). split.
    { cbn [range_stored_certs]. unfold mbind at 1, M_bind at 1.
      rewrite Hrun1, Hrun2. by rewrite app_assoc. }
    split; [by rewrite Hsent2|].
    split.
    { intros it Hit. destruct (Hframe1 it Hit) as [Hit1 Heq1].
      destruct (Hframe2 it Hit1) as [Hit2 Heq2]. split; [done|].
      by rewrite Heq2. }
    split.
    { apply Forall_app. split; [|done].
      eapply Forall_impl; [exact Hin1|]. intros it Hit. by apply Hframe2. }
    rewrite fmap_app, Hread2, bind_cons. f_equal.
    rewrite <-Hread1. apply Forall_fmap_ext.
    eapply Forall_impl; [exact Hin1|]. intros it Hit. by apply Hframe2.
Qed.

(** What [GetCertStoreInventory] returns for a payload whose elements all
    pass the assertions of the decoder: for each slot in turn, the items of
    [slot_items]; one request has gone out. *)
Lemma GetCertStoreInventory_spec transport storeId w resp jsonResp slots :
  transport (sent w) (inventory_request storeId) = Ok resp →
  decode_slice (Body resp) = Ok jsonResp →
  mapM slot_of jsonResp = Done slots →
  ∃ items w',
    GetCertStoreInventory growslice transport storeId w = Done (Ok items, w')
    ∧ sent w' = sent w ++ [inventory_request storeId]
    ∧ read_item w' <$> items = slots ≫= slot_items.
Proof.
  intros Hresp Hdecode Hslots.
  unfold GetCertStoreInventory, mbind at 1, M_bind at 1, sendRequest.
  fold (inventory_request storeId). rewrite Hresp, Hdecode.
  fold (after_request (inventory_request storeId) w).
  destruct (decide (length jsonResp = 0%nat)) as [Hnil|Hcons].
  - apply nil_length_inv in Hnil. subst jsonResp. injection Hslots as <-.
    by exists [], (after_request (inventory_request storeId) w).
  - destruct (range_stored_certs_spec jsonResp slots []
                (after_request (inventory_request storeId) w) Hslots)
      as (w' & items & Hrun & Hsent & _ & _ & Hread).
    exists items, w'. unfold mbind, M_bind. rewrite Hrun. by repeat split.
Qed.

Lemma inventory_of_spec transport storeId w resp jsonResp slots :
  transport (sent w) (inventory_request storeId) = Ok resp →
  decode_slice (Body resp) = Ok jsonResp →
  mapM slot_of jsonResp = Done slots →
  inventory_of (GetCertStoreInventory growslice transport storeId w)
  = Some (Ok (slots ≫= slot_items)).
Proof.
  intros Hresp Hdecode Hslots.
  destruct (GetCertStoreInventory_spec _ _ _ _ _ _ Hresp Hdecode Hslots)
    as (items & w' & Hrun & _ & Hread).
  rewrite Hrun. simpl. by rewrite Hread.
Qed.

Lemma mapM_outcome_app {A B} (f : A → outcome B) l1 l2 ys1 ys2 :
  mapM f l1 = Done ys1 → mapM f l2 = Done ys2 →
  mapM f (l1 ++ l2) = Done (ys1 ++ ys2).
Proof.
  revert ys1. induction l1 as [|x l1 IH]; intros ys1 H1 H2.
  - injection H1 as <-. exact H2.
  - apply mapM_outcome_cons in H1 as (y & ys' & Hy & Hys' & ->).
    simpl. rewrite Hy. simpl. rewrite (IH ys' Hys' H2). reflexivity.
Qed.

Lemma set_of_singleton `{Countable K} (k : K) : set_of [k] = {[k := true]}.
Proof. unfold set_of, add_all. simpl. apply insert_empty. Qed.

Lemma slot_items_lookup sl k :
  (k < length (slotCertificates sl))%nat →
  slot_items sl !! k = Some (slot_item sl (take (S k) (slotCertificates sl))).
Proof.
  intros Hk. unfold slot_items. rewrite list_lookup_fmap.
  by rewrite lookup_seq_lt.
Qed.

(** C1, as amended.  When every element of the payload passes the
    assertions of the decoder, the inventory returned is, slot after slot,
    one item per certificate of the slot: a slot of [n] certificates gives
    [n] items with the name, the item id and the parameters of the slot, of
    which the [k]-th lists the first [k] certificates (so the last one lists
    them all).  A payload of one slot with one certificate gives exactly one
    item, which lists that certificate and whose thumbprint, serial-number
    and id sets hold exactly the fields of that certificate. *)
Theorem inventory_one_item_per_certificate
    transport storeId w resp jsonResp slots :
  transport (sent w) (inventory_request storeId) = Ok resp →
  decode_slice (Body resp) = Ok jsonResp →
  mapM slot_of jsonResp = Done slots →
  inventory_of (GetCertStoreInventory growslice transport storeId w)
    = Some (Ok (slots ≫= slot_items))
  ∧ (∀ sl, length (slot_items sl) = length (slotCertificates sl)
       ∧ ∀ k, (k < length (slotCertificates sl))%nat →
           ∃ item, slot_items sl !! k = Some item
             ∧ itemName item = slotName sl
             ∧ itemId item = slotItemId sl
             ∧ itemParameters item = slotParameters sl
             ∧ itemCertificates item = take (S k) (slotCertificates sl))
  ∧ (∀ sl c, slots = [sl] → slotCertificates sl = [c] →
       ∃ item,
         inventory_of (GetCertStoreInventory growslice transport storeId w)
           = Some (Ok [item])
         ∧ itemCertificates item = [c]
         ∧ itemThumbprints item = {[InventoriedCertificate.Thumbprint c := true]}
         ∧ itemSerials item = {[InventoriedCertificate.SerialNumber c := true]}
         ∧ itemIds item = {[InventoriedCertificate.Id c := true]}).
Proof.
  intros Hresp Hdecode Hslots.
  pose proof (inventory_of_spec _ _ _ _ _ _ Hresp Hdecode Hslots) as Hinv.
  split; [exact Hinv|]. split.
  - intros sl. split.
    + unfold slot_items. by rewrite length_fmap, length_seq.
    + intros k Hk. eexists. split; [by apply slot_items_lookup|]. by repeat split.
  - intros sl c -> Hc. exists (slot_item sl [c]). split.
    + rewrite Hinv. cbn [mbind list_bind]. rewrite app_nil_r.
      unfold slot_items. by rewrite Hc.
    + unfold slot_item. rewrite Hc. cbn [itemCertificates itemThumbprints
        itemSerials itemIds fmap list_fmap]. by rewrite !set_of_singleton.
Qed.

(** C9.  A payload element whose [Certificates] array is empty adds no
    item: the pass of the outer loop over it returns the result list it was
    given, and the inventory returned for the payload holds the items of the
    slots before it followed by those of the slots after it. *)
Theorem empty_slot_emits_no_item
    transport storeId w resp before storedCert after slotsB sl slotsA :
  transport (sent w) (inventory_request storeId) = Ok resp →
  decode_slice (Body resp) = Ok (before ++ storedCert :: after) →
  mapM slot_of before = Done slotsB →
  slot_of storedCert = Done sl →
  field storedCert "Certificates" = Done (JArray []) →
  mapM slot_of after = Done slotsA →
  (∀ invResp w0, ∃ w1,
      stored_cert growslice storedCert invResp w0 = Done (invResp, w1))
  ∧ inventory_of (GetCertStoreInventory growslice transport storeId w)
    = Some (Ok ((slotsB ≫= slot_items) ++ (slotsA ≫= slot_items))).
Proof.
  intros Hresp Hdecode HB Hsl Hcerts HA.
  assert (slot_items sl = []) as Hnone.
  { unfold slot_of in Hsl.
    apply outcome_bind_Done in Hsl as (p & Hp & Hsl).
    apply outcome_bind_Done in Hsl as (name & Hname & Hsl).
    apply outcome_bind_Done in Hsl as (itemId & HitemId & Hsl).
    rewrite Hcerts in Hsl. simpl in Hsl. by injection Hsl as <-. }
  split.
  - intros invResp w0.
    destruct (stored_cert_spec storedCert sl invResp w0 Hsl)
      as (w1 & emitted & Hrun & _ & _ & _ & Hread).
    rewrite Hnone in Hread. apply fmap_nil_inv in Hread. subst emitted.
    exists w1. by rewrite app_nil_r in Hrun.
  - assert (mapM slot_of (before ++ storedCert :: after)
            = Done (slotsB ++ sl :: slotsA)) as Hall.
    { apply mapM_outcome_app; [done|]. simpl. rewrite Hsl. simpl.
      by rewrite HA. }
    rewrite (inventory_of_spec _ _ _ _ _ _ Hresp Hdecode Hall).
    by rewrite bind_app, bind_cons, Hnone.
Qed.

End inventory_facts.

Lemma inventory_one_item_per_certificate_witness :
  inventory_of
    (GetCertStoreInventory doubling
       (answering {| StatusCode := 200; Body := two_certificates_body |})
       "store-7" initial)
  = Some (Ok [slot_item two_certificates_slot [certificate_a];
              slot_item two_certificates_slot [certificate_a; certificate_b]]).
Proof.
  refine (proj1 (inventory_one_item_per_certificate doubling
                   (answering {| StatusCode := 200; Body := two_certificates_body |})
                   "store-7" initial
                   {| StatusCode := 200; Body := two_certificates_body |}
                   (elements_of two_certificates_body)
                   [two_certificates_slot] eq_refl _ _)).
  - vm_compute. reflexivity.
  - vm_compute. reflexivity.
Defined.

(** C1, as it is stated, fails on a slot of two certificates: the first of
    the two items lists one certificate, not the two of the slot. *)
Lemma inventory_items_do_not_all_list_the_slot :
  inventory_of
    (GetCertStoreInventory doubling
       (answering {| StatusCode := 200; Body := two_certificates_body |})
       "store-7" initial)
  = Some (Ok [slot_item two_certificates_slot [certificate_a];
              slot_item two_certificates_slot [certificate_a; certificate_b]])
  ∧ inventory_of
      (GetCertStoreInventory doubling
         (answering {| StatusCode := 200; Body := two_certificates_body |})
         "store-7" initial)
    ≠ Some (Ok (slot_items_as_specified two_certificates_slot)).
Proof.
  assert (inventory_of
            (GetCertStoreInventory doubling
               (answering {| StatusCode := 200; Body := two_certificates_body |})
               "store-7" initial)
          = Some (Ok [slot_item two_certificates_slot [certificate_a];
                      slot_item two_certificates_slot [certificate_a; certificate_b]]))
    as Hrun by (vm_compute; reflexivity).
  split; [exact Hrun|]. rewrite Hrun. intros Heq.
  apply (f_equal (λ r, match r with
                       | Some (Ok (i :: _)) => length (itemCertificates i)
                       | _ => 0%nat
                       end)) in Heq.
  vm_compute in Heq. discriminate.
Qed.

(** C2 fails on the same payload: the first item returned lists the first
    certificate only, while its three sets hold the fields of both; the
    second item satisfies the invariant. *)
Lemma inventory_sets_exceed_listed_certificates :
  ∃ first second,
    inventory_of
      (GetCertStoreInventory doubling
         (answering {| StatusCode := 200; Body := two_certificates_body |})
         "store-7" initial)
    = Some (Ok [first; second])
    ∧ itemCertificates first = [certificate_a]
    ∧ itemThumbprints first !! "T2" = Some true
    ∧ ¬ sets_match_certificates first
    ∧ sets_match_certificates second.
Proof.
  exists (slot_item two_certificates_slot [certificate_a]),
         (slot_item two_certificates_slot [certificate_a; certificate_b]).
  split; [vm_compute; reflexivity|]. split; [reflexivity|].
  split; [vm_compute; reflexivity|]. split.
  - intros [Hthumbs _].
    apply (f_equal (λ m : gmap string bool, m !! "T2")) in Hthumbs.
    vm_compute in Hthumbs. discriminate.
  - by repeat split.
Qed.

Lemma empty_slot_emits_no_item_witness :
  (map itemName <$>
     match inventory_of
             (GetCertStoreInventory doubling
                (answering {| StatusCode := 200; Body := empty_slot_body |})
                "store-7" initial) with
     | Some (Ok items) => Some items
     | _ => None
     end)
  = Some ["first"; "last"].
Proof.
  destruct (empty_slot_emits_no_item doubling
              (answering {| StatusCode := 200; Body := empty_slot_body |})
              "store-7" initial
              {| StatusCode := 200; Body := empty_slot_body |}
              (take 1 (elements_of empty_slot_body))
              (default JNull (elements_of empty_slot_body !! 1%nat))
              (drop 2 (elements_of empty_slot_body))
              (take 1 (slots_of (elements_of empty_slot_body)))
              {| slotName := "empty"; slotItemId := 2;
                 slotParameters := {["Alias" := JString "x"]};
                 slotCertificates := [] |}
              (drop 2 (slots_of (elements_of empty_slot_body)))
              eq_refl)
    as [_ Hinv]; [vm_compute; reflexivity..|].
  rewrite Hinv. vm_compute. reflexivity.
Defined.

(* ===================================================================== *)
(** * Further properties of the PropertyCodec *)
(* ===================================================================== *)

Lemma unmarshal_entries_Done_inv entries : ∀ acc m,
  unmarshal_entries entries acc = Done m →
  ∃ l : list (string * string),
    entries = prod_map id JString <$> l
    ∧ m = foldl (λ m kv, <[kv.1 := kv.2]> m) acc l.
Proof.
  induction entries as [|[k v] entries IH]; intros acc m Hm.
  - injection Hm as <-. by exists [].
  - destruct v; try discriminate. simpl in Hm.
    destruct (IH _ _ Hm) as (l & -> & ->). by exists ((k, s) :: l).
Qed.

(** X1.  When the text parses as a JSON object, the decode returns a map
    only if every value of the object is a string, and then the map has
    exactly the entries of the object: no entry is dropped, added or
    defaulted. *)
Theorem unmarshalPropertiesString_exact
    (s : string) (o : gmap string value) (m : gmap string string) :
  Unmarshal s = Some (JObject o) →
  unmarshalPropertiesString s = Done m ↔ o = JString <$> m.
Proof.
  intros Hs. split.
  - unfold unmarshalPropertiesString.
    destruct (decide (s ≠ "")) as [_|Hempty].
    + rewrite Hs. simpl. intros Hm.
      apply unmarshal_entries_Done_inv in Hm as (l & Hl & ->).
      assert (NoDup l.*1) as Hnd.
      { pose proof (NoDup_fst_map_to_list o) as Hnd. rewrite Hl in Hnd.
        rewrite <-list_fmap_compose in Hnd.
        replace (fst ∘ prod_map id JString <$> l) with l.*1 in Hnd; [done|].
        apply list_fmap_ext. by intros ? []. }
      rewrite <-(list_to_map_to_list o), Hl.
      apply map_eq. intros k. rewrite list_to_map_fmap, !lookup_fmap.
      rewrite foldl_insert_lookup, lookup_empty by done.
      by destruct (list_to_map l !! k).
    + apply dec_stable in Hempty. subst s. by rewrite Unmarshal_empty in Hs.
  - intros ->. unfold unmarshalPropertiesString.
    destruct (decide (s ≠ "")) as [_|Hempty].
    + rewrite Hs. simpl. apply unmarshal_flat_entries.
    + apply dec_stable in Hempty. subst s. by rewrite Unmarshal_empty in Hs.
Qed.

Lemma unmarshalPropertiesString_exact_witness :
  unmarshalPropertiesString (requote "{'alias': 'web'}")
  = Done (<["alias" := "web"]> ∅).
Proof.
  refine (proj2 (unmarshalPropertiesString_exact
                   (requote "{'alias': 'web'}")
                   (<["alias" := JString "web"]> ∅)
                   (<["alias" := "web"]> ∅) _) _);
    vm_compute; reflexivity.
Defined.

(** X2.  The two wire shapes do not round-trip: a text that parses as the
    write-side object of a PropertyMap (each name mapped to a record
    [{value: ...}]) makes the read-side decode panic as soon as the map has
    one property; only for the empty map does it decode, to the empty
    map. *)
Theorem write_side_text_does_not_decode
    (properties : gmap string string) (text : string) :
  Unmarshal text = Some (buildPropertiesInterface properties) →
  (properties ≠ ∅ → unmarshalPropertiesString text = Panicked)
  ∧ (properties = ∅ → unmarshalPropertiesString text = Done ∅).
Proof.
  intros Htext. rewrite buildPropertiesInterface_fmap in Htext.
  assert (text ≠ "") as Hne by (intros ->; by rewrite Unmarshal_empty in Htext).
  unfold unmarshalPropertiesString.
  destruct (decide (text ≠ "")); [|done]. rewrite Htext. simpl. split.
  - intros Hprops. apply map_choose in Hprops as (k & v & Hkv).
    apply (unmarshal_entries_panics _ _ k (value_record v)); [|done].
    apply elem_of_map_to_list. by rewrite lookup_fmap, Hkv.
  - intros ->. by rewrite fmap_empty, map_to_list_empty.
Qed.

Lemma write_side_text_does_not_decode_witness :
  unmarshalPropertiesString (requote "{'alias':{'value':'web'}}") = Panicked.
Proof.
  refine (proj1 (write_side_text_does_not_decode
                   (<["alias" := "web"]> ∅)
                   (requote "{'alias':{'value':'web'}}") _) _).
  - vm_compute. reflexivity.
  - intros Hempty. apply (f_equal (λ m : gmap string string, m !! "alias")) in Hempty.
    vm_compute in Hempty. discriminate.
Defined.

(* ===================================================================== *)
(** * Further properties of the store operations *)
(* ===================================================================== *)

Section more_ops_facts.

Context (transport : list request → request → result response).
Context {CreateStoreResponse UpdateStoreResponse : Type}.
Context (decodeCreate : string → result CreateStoreResponse).
Context (decodeUpdate : string → result UpdateStoreResponse).

(** X3.  [CreateStore] with valid arguments and a properties string given
    by the caller sends that string as it is: the PropertyMap is not
    encoded, the record is not changed, exactly one request goes out (a POST
    to [CertificateStores] with the two API headers), and the result is the
    error of the transport, unchanged, or the decoded body. *)
Theorem CreateStore_keeps_given_properties_string
    (ca : CreateStoreFctArgs.t) (w : World) :
  validateCreateStoreArgs ca = None →
  CreateStoreFctArgs.PropertiesString ca ≠ "" →
  CreateStore transport CreateStoreResponse decodeCreate ca w
  = Done ((match transport (sent w) (create_request ca) with
           | Err err => Err err
           | Ok resp => decodeCreate (Body resp)
           end, ca),
          after_request (create_request ca) w).
Proof.
  intros Hvalid Hgiven. unfold CreateStore. rewrite Hvalid.
  destruct (decide (CreateStoreFctArgs.PropertiesString ca = "")); [done|].
  unfold mbind, M_bind, sendRequest. fold (create_request ca).
  fold (after_request (create_request ca) w).
  by destruct (transport (sent w) (create_request ca)).
Qed.

(** X4.  [UpdateStore] with valid arguments sends exactly one request, with
    the method spelled [Put], to [CertificateStores]: the properties string
    is the caller's when there is one and the write-side text of the
    PropertyMap otherwise, and the record handed back carries it.  The
    result is the error of the transport or the decoded body. *)
Theorem UpdateStore_request (ua : UpdateStoreFctArgs.t) (w : World) :
  validateUpdateStoreArgs ua = None →
  let ua' :=
    if decide (UpdateStoreFctArgs.PropertiesString ua = "")
    then UpdateStoreFctArgs.set_PropertiesString
           (write_side_text (UpdateStoreFctArgs.Properties ua)) ua
    else ua in
  UpdateStore transport UpdateStoreResponse decodeUpdate ua w
  = Done ((match transport (sent w) (update_request ua') with
           | Err err => Err err
           | Ok resp => decodeUpdate (Body resp)
           end, ua'),
          after_request (update_request ua') w).
Proof.
  intros Hvalid ua'. unfold UpdateStore. rewrite Hvalid. subst ua'.
  destruct (decide (UpdateStoreFctArgs.PropertiesString ua = "")).
  - unfold Marshal. rewrite buildPropertiesInterface_fmap.
    fold (write_side_text (UpdateStoreFctArgs.Properties ua)).
    set (ua' := UpdateStoreFctArgs.set_PropertiesString _ ua).
    unfold mbind, M_bind, sendRequest. fold (update_request ua').
    fold (after_request (update_request ua') w).
    by destruct (transport (sent w) (update_request ua')).
  - unfold mbind, M_bind, sendRequest. fold (update_request ua).
    fold (after_request (update_request ua) w).
    by destruct (transport (sent w) (update_request ua)).
Qed.

(** X5.  [DeleteCertificateStore] does not validate the store id: for every
    id, the empty one included, one DELETE request goes out to
    [CertificateStores/<id>]; when the transport fails, its error is
    returned as it is. *)
Theorem DeleteCertificateStore_transport_error
    (storeId : string) (err : error) (w : World) :
  transport (sent w) (delete_request storeId) = Err err →
  DeleteCertificateStore transport storeId w
  = Done (Some err, after_request (delete_request storeId) w).
Proof.
  intros Herr. unfold DeleteCertificateStore, mbind, M_bind, sendRequest.
  fold (delete_request storeId). by rewrite Herr.
Qed.

End more_ops_facts.

Lemma CreateStore_keeps_given_properties_string_witness :
  CreateStore (failing "connection refused") string raw_body
    (CreateStoreFctArgs.mk "host-1" "/etc/ssl/store" "agent-1"
       (<["alias" := "web"]> ∅) "{}") initial
  = Done ((Err "connection refused",
           CreateStoreFctArgs.mk "host-1" "/etc/ssl/store" "agent-1"
             (<["alias" := "web"]> ∅) "{}"),
          after_request
            (create_request
               (CreateStoreFctArgs.mk "host-1" "/etc/ssl/store" "agent-1"
                  (<["alias" := "web"]> ∅) "{}")) initial).
Proof.
  apply (CreateStore_keeps_given_properties_string
           (failing "connection refused") raw_body
           (CreateStoreFctArgs.mk "host-1" "/etc/ssl/store" "agent-1"
              (<["alias" := "web"]> ∅) "{}") initial).
  - reflexivity.
  - discriminate.
Defined.

Lemma UpdateStore_request_witness :
  ∃ ua' r,
    UpdateStore (answering {| StatusCode := 200; Body := "ok" |}) string raw_body
      (UpdateStoreFctArgs.mk "host-1" "/etc/ssl/store" "agent-1"
         (<["alias" := "web"]> ∅) "") initial
    = Done ((r, ua'), after_request (update_request ua') initial)
    ∧ UpdateStoreFctArgs.PropertiesString ua'
      = requote "{'alias':{'value':'web'}}".
Proof.
  eexists _, _. split.
  - apply (UpdateStore_request
             (answering {| StatusCode := 200; Body := "ok" |}) raw_body
             (UpdateStoreFctArgs.mk "host-1" "/etc/ssl/store" "agent-1"
                (<["alias" := "web"]> ∅) "") initial).
    reflexivity.
  - vm_compute. reflexivity.
Defined.

Lemma DeleteCertificateStore_transport_error_witness :
  DeleteCertificateStore (failing "connection refused") "" initial
  = Done (Some "connection refused", after_request (delete_request "") initial).
Proof.
  apply (DeleteCertificateStore_transport_error (failing "connection refused")).
  reflexivity.
Defined.

Section list_and_get_facts.

Context (transport : list request → request → result response).
Context {GetCertificateStoreResponse Others : Type}.
Context (decodeStores : string → result (list GetCertificateStoreResponse)).
Context (decodeStore : string → result (option (GetStoreByIDResp.t Others))).

(** X6.  [ListCertificateStores] on a response: a status other than 200
    gives an empty, non-nil list together with the error whose message has
    the method, the endpoint and the status; status 200 gives the decoded
    list with no error, or the nil pointer with the error of the decoder.
    One request goes out. *)
Theorem ListCertificateStores_status (resp : response) (w : World) :
  transport (sent w) list_request = Ok resp →
  (StatusCode resp ≠ 200 →
     ListCertificateStores transport GetCertificateStoreResponse decodeStores w
     = Done ((Some [],
              Some ("[ERROR] Something unexpected happened, GET call to "
                      +:+ "CertificateStores/ returned status "
                      +:+ itoa (StatusCode resp))),
             after_request list_request w))
  ∧ (StatusCode resp = 200 →
     ListCertificateStores transport GetCertificateStoreResponse decodeStores w
     = Done (match decodeStores (Body resp) with
             | Err err => (None, Some err)
             | Ok stores => (Some stores, None)
             end, after_request list_request w)).
Proof.
  intros Hresp.
  unfold ListCertificateStores, mbind, M_bind, sendRequest.
  fold list_request. rewrite Hresp. fold (after_request list_request w).
  unfold StatusOK. split; intros Hstatus.
  - by destruct (decide (StatusCode resp ≠ 200)).
  - destruct (decide (StatusCode resp ≠ 200)); [done|].
    by destruct (decodeStores (Body resp)).
Qed.

(** X7.  When the transport fails, [ListCertificateStores] returns the
    error of the transport together with an empty list, not a nil one. *)
Theorem ListCertificateStores_transport_error (err : error) (w : World) :
  transport (sent w) list_request = Err err →
  ListCertificateStores transport GetCertificateStoreResponse decodeStores w
  = Done ((Some [], Some err), after_request list_request w).
Proof.
  intros Herr. unfold ListCertificateStores, mbind, M_bind, sendRequest.
  fold list_request. by rewrite Herr.
Qed.

(** X8.  [GetCertificateStoreByID] fills [Properties] from
    [PropertiesString]: when the properties string of the decoded record is
    the flat form of a PropertyMap, the record comes back with that map and
    its other fields as decoded.  The status of the response plays no part:
    the theorem holds for every status code. *)
Theorem GetCertificateStoreByID_properties
    (storeId : string) (resp : response) (r : GetStoreByIDResp.t Others)
    (m : gmap string string) (w : World) :
  transport (sent w) (get_request storeId) = Ok resp →
  decodeStore (Body resp) = Ok (Some r) →
  Unmarshal (GetStoreByIDResp.PropertiesString r) = Some (flat_form m) →
  GetCertificateStoreByID transport Others decodeStore storeId w
  = Done (Ok (GetStoreByIDResp.mk (GetStoreByIDResp.PropertiesString r) m
                (GetStoreByIDResp.OtherFields r)),
          after_request (get_request storeId) w).
Proof.
  intros Hresp Hr Hm.
  unfold GetCertificateStoreByID, mbind at 1, M_bind at 1, sendRequest.
  fold (get_request storeId). rewrite Hresp, Hr.
  fold (after_request (get_request storeId) w).
  assert (unmarshalPropertiesString (GetStoreByIDResp.PropertiesString r) = Done m)
    as ->.
  { unfold unmarshalPropertiesString.
    destruct (decide (GetStoreByIDResp.PropertiesString r ≠ "")) as [_|Hempty].
    - rewrite Hm. simpl. apply unmarshal_flat_entries.
    - apply dec_stable in Hempty. rewrite Hempty in Hm.
      by rewrite Unmarshal_empty in Hm. }
  reflexivity.
Qed.

(** X9.  [GetCertificateStoreByID] has no result for a store whose
    properties string is valid JSON but not a flat object of strings: it
    panics when the text is not an object, and when one value of the object
    is not a string, as the write-side records [{value: ...}] are. *)
Theorem GetCertificateStoreByID_panics
    (storeId : string) (resp : response) (r : GetStoreByIDResp.t Others)
    (v : value) (w : World) :
  transport (sent w) (get_request storeId) = Ok resp →
  decodeStore (Body resp) = Ok (Some r) →
  Unmarshal (GetStoreByIDResp.PropertiesString r) = Some v →
  (∀ m, v ≠ flat_form m) →
  GetCertificateStoreByID transport Others decodeStore storeId w = Panicked.
Proof.
  intros Hresp Hr Hv Hflat.
  unfold GetCertificateStoreByID, mbind at 1, M_bind at 1, sendRequest.
  fold (get_request storeId). rewrite Hresp, Hr.
  assert (unmarshalPropertiesString (GetStoreByIDResp.PropertiesString r) = Panicked)
    as ->; [|done].
  unfold unmarshalPropertiesString.
  destruct (decide (GetStoreByIDResp.PropertiesString r ≠ "")) as [_|Hempty].
  - rewrite Hv. destruct v as [| | | | |o]; try reflexivity. simpl.
    destruct (unmarshal_entries (map_to_list o) ∅) as [m|] eqn:Hm; [|done].
    apply unmarshal_entries_Done_inv in Hm as (l & Hl & _).
    destruct (Hflat (list_to_map l)). unfold flat_form. f_equal.
    by rewrite <-list_to_map_fmap, <-Hl, list_to_map_to_list.
  - apply dec_stable in Hempty. rewrite Hempty in Hv.
    by rewrite Unmarshal_empty in Hv.
Qed.

End list_and_get_facts.

Lemma ListCertificateStores_status_witness :
  ListCertificateStores (answering {| StatusCode := 503; Body := "busy" |})
    string body_as_store initial
  = Done ((Some [],
           Some "[ERROR] Something unexpected happened, GET call to CertificateStores/ returned status 503"),
          after_request list_request initial).
Proof.
  apply (ListCertificateStores_status
           (answering {| StatusCode := 503; Body := "busy" |}) body_as_store
           {| StatusCode := 503; Body := "busy" |} initial eq_refl).
  discriminate.
Defined.

Lemma ListCertificateStores_transport_error_witness :
  ListCertificateStores (failing "connection refused") string body_as_store initial
  = Done ((Some [], Some "connection refused"), after_request list_request initial).
Proof.
  apply (ListCertificateStores_transport_error (failing "connection refused")).
  reflexivity.
Defined.

Lemma GetCertificateStoreByID_properties_witness :
  GetCertificateStoreByID
    (answering {| StatusCode := 404; Body := requote "{'alias': 'web'}" |})
    unit body_as_properties "store-7" initial
  = Done (Ok (GetStoreByIDResp.mk (requote "{'alias': 'web'}")
                (<["alias" := "web"]> ∅) tt),
          after_request (get_request "store-7") initial).
Proof.
  apply (GetCertificateStoreByID_properties
           (answering {| StatusCode := 404; Body := requote "{'alias': 'web'}" |})
           body_as_properties "store-7"
           {| StatusCode := 404; Body := requote "{'alias': 'web'}" |}
           (GetStoreByIDResp.mk (requote "{'alias': 'web'}") ∅ tt)
           (<["alias" := "web"]> ∅) initial eq_refl eq_refl).
  vm_compute. reflexivity.
Defined.

Lemma GetCertificateStoreByID_panics_witness :
  GetCertificateStoreByID
    (answering {| StatusCode := 200;
                  Body := requote "{'alias':{'value':'web'}}" |})
    unit body_as_properties "store-7" initial
  = Panicked.
Proof.
  apply (GetCertificateStoreByID_panics
           (answering {| StatusCode := 200;
                         Body := requote "{'alias':{'value':'web'}}" |})
           body_as_properties "store-7"
           {| StatusCode := 200; Body := requote "{'alias':{'value':'web'}}" |}
           (GetStoreByIDResp.mk (requote "{'alias':{'value':'web'}}") ∅ tt)
           (JObject (<["alias" := value_record "web"]> ∅))
           initial eq_refl eq_refl).
  - vm_compute. reflexivity.
  - intros m Hm. injection Hm as Hm.
    apply (f_equal (λ o : gmap string value, o !! "alias")) in Hm.
    rewrite lookup_fmap, lookup_insert_eq in Hm.
    destruct (m !! "alias"); discriminate.
Defined.

(* ===================================================================== *)
(** * Further properties of the InventoryDecoder *)
(* ===================================================================== *)

Section more_inventory_facts.

Context (growslice : nat → nat).
Context (transport : list request → request → result response).

Lemma mapM_outcome_Panicked_cons {A B} (f : A → outcome B) x l :
  mapM f (x :: l) = Panicked →
  f x = Panicked ∨ ∃ y, f x = Done y ∧ mapM f l = Panicked.
Proof.
  simpl. destruct (f x) as [y|]; [|by left]. simpl.
  destruct (mapM f l); [done|]. right. eauto.
Qed.

Lemma range_certificates_panics certs : ∀ invC invResp w,
  mapM iCert_of certs = Panicked →
  range_certificates growslice certs invC invResp w = Panicked.
Proof.
  induction certs as [|cert certs IH]; intros invC invResp w Hp; [done|].
  cbn [range_certificates]. unfold mbind at 1, M_bind at 1, pure.
  apply mapM_outcome_Panicked_cons in Hp as [->|(c & -> & Hp)]; [done|].
  unfold mbind at 1, M_bind at 1.
  destruct (append _ _ _ _) as [[s1 wa]|]; [|done].
  unfold mbind at 1, M_bind at 1.
  destruct (field cert "Thumbprint" ≫= assert_string) as [thumbprint|]; [|done].
  unfold mbind at 1, M_bind at 1.
  destruct (strmap_set _ _ _ _) as [[[] wb]|]; [|done].
  unfold mbind at 1, M_bind at 1.
  destruct (field cert "SerialNumber" ≫= assert_string) as [serial|]; [|done].
  unfold mbind at 1, M_bind at 1.
  destruct (strmap_set _ _ _ _) as [[[] wc]|]; [|done].
  unfold mbind at 1, M_bind at 1.
  destruct (field cert "Id" ≫= assert_float64) as [id|]; [|done].
  unfold mbind at 1, M_bind at 1.
  destruct (intmap_set _ _ _ _) as [[[] wd]|]; [|done].
  by apply IH.
Qed.

Lemma stored_cert_panics storedCert invResp w :
  slot_of storedCert = Panicked →
  stored_cert growslice storedCert invResp w = Panicked.
Proof.
  unfold stored_cert. intros Hp.
  unfold mbind at 1, M_bind at 1, pure.
  destruct (field storedCert "Parameters") as [p|] eqn:Ep; [|done].
  unfold mbind at 1, M_bind at 1.
  destruct (field storedCert "Name" ≫= assert_string) as [name|] eqn:En; [|done].
  unfold mbind at 1, M_bind at 1.
  destruct (field storedCert "CertStoreInventoryItemId" ≫= assert_float64)
    as [itemId|] eqn:Ei; [|done].
  unfold mbind at 1, M_bind at 1, empty_slice.
  unfold mbind at 1, M_bind at 1, new_array, mret at 1, M_ret at 1.
  unfold mbind at 1, M_bind at 1, new_strmap.
  unfold mbind at 1, M_bind at 1. cbn [strmaps intmaps arrays sent].
  unfold mbind at 1, M_bind at 1, new_intmap. cbn [strmaps intmaps arrays sent].
  unfold mbind at 1, M_bind at 1.
  destruct (field storedCert "Certificates" ≫= assert_slice) as [certs|] eqn:Ec;
    [|done].
  unfold mbind at 1, M_bind at 1.
  rewrite range_certificates_panics; [done|].
  unfold slot_of in Hp. rewrite Ep in Hp. cbn [mbind outcome_bind] in Hp.
  rewrite En in Hp. cbn [mbind outcome_bind] in Hp.
  rewrite Ei in Hp. cbn [mbind outcome_bind] in Hp.
  rewrite Ec in Hp. cbn [mbind outcome_bind] in Hp.
  by destruct (mapM iCert_of certs).
Qed.

Lemma range_stored_certs_panics jsonResp : ∀ invResp w,
  mapM slot_of jsonResp = Panicked →
  range_stored_certs growslice jsonResp invResp w = Panicked.
Proof.
  induction jsonResp as [|storedCert rest IH]; intros invResp w Hp; [done|].
  cbn [range_stored_certs]. unfold mbind at 1, M_bind at 1.
  apply mapM_outcome_Panicked_cons in Hp as [Hp|(sl & Hsl & Hp)].
  - by rewrite stored_cert_panics.
  - destruct (stored_cert_spec growslice storedCert sl invResp w Hsl)
      as (w1 & em & -> & _). by apply IH.
Qed.

Lemma GetCertStoreInventory_panics storeId resp jsonResp w :
  transport (sent w) (inventory_request storeId) = Ok resp →
  decode_slice (Body resp) = Ok jsonResp →
  mapM slot_of jsonResp = Panicked →
  GetCertStoreInventory growslice transport storeId w = Panicked.
Proof.
  intros Hresp Hdecode Hp.
  unfold GetCertStoreInventory, mbind at 1, M_bind at 1, sendRequest.
  fold (inventory_request storeId). rewrite Hresp, Hdecode.
  destruct (decide (length jsonResp = 0%nat)) as [Hnil|_].
  - apply nil_length_inv in Hnil. by subst jsonResp.
  - unfold mbind, M_bind. by rewrite range_stored_certs_panics.
Qed.

Lemma GetCertStoreInventory_fails storeId err w :
  transport (sent w) (inventory_request storeId) = Err err
  ∨ (∃ resp, transport (sent w) (inventory_request storeId) = Ok resp
             ∧ decode_slice (Body resp) = Err err) →
  GetCertStoreInventory growslice transport storeId w
  = Done (Err err, after_request (inventory_request storeId) w).
Proof.
  intros Hfail.
  unfold GetCertStoreInventory, mbind at 1, M_bind at 1, sendRequest.
  fold (inventory_request storeId).
  destruct Hfail as [->|(resp & -> & ->)]; reflexivity.
Qed.

(** X10.  [GetCertStoreInventory] panics exactly when some element of the
    payload fails one of the unchecked assertions (the element is not an
    object, its name is not a string, its item id is not a number, its
    [Certificates] is not an array, or a certificate lacks one of its nine
    fields or has it with another type); otherwise it returns the inventory.
    A certificate without a [Thumbprint] is therefore a panic, not an
    error. *)
Theorem GetCertStoreInventory_panics_iff
    (storeId : string) (resp : response) (jsonResp : list value) (w : World) :
  transport (sent w) (inventory_request storeId) = Ok resp →
  decode_slice (Body resp) = Ok jsonResp →
  GetCertStoreInventory growslice transport storeId w = Panicked
  ↔ mapM slot_of jsonResp = Panicked.
Proof.
  intros Hresp Hdecode. split.
  - intros Hp. destruct (mapM slot_of jsonResp) as [slots|] eqn:Hslots; [|done].
    destruct (GetCertStoreInventory_spec growslice _ _ _ _ _ _
                Hresp Hdecode Hslots) as (items & w' & Hrun & _).
    by rewrite Hrun in Hp.
  - by apply (GetCertStoreInventory_panics storeId resp jsonResp).
Qed.

(** X11.  A body that is the JSON value [null] or the empty array gives the
    empty inventory: one request goes out, nothing is allocated, and the
    status of the response plays no part. *)
Theorem GetCertStoreInventory_empty (storeId : string) (resp : response) (w : World) :
  transport (sent w) (inventory_request storeId) = Ok resp →
  Decode (Body resp) = Some JNull ∨ Decode (Body resp) = Some (JArray []) →
  GetCertStoreInventory growslice transport storeId w
  = Done (Ok [], after_request (inventory_request storeId) w).
Proof.
  intros Hresp Hbody.
  unfold GetCertStoreInventory, mbind at 1, M_bind at 1, sendRequest.
  fold (inventory_request storeId). rewrite Hresp.
  unfold decode_slice. by destruct Hbody as [->| ->].
Qed.

(** X12.  Failures before the loops are returned as errors and allocate
    nothing: the error of the transport, as it is, and the error of the
    decoder when the body is not JSON or is a JSON value other than an array
    or [null]. *)
Theorem GetCertStoreInventory_errors (storeId : string) (err : error) (w : World) :
  transport (sent w) (inventory_request storeId) = Err err
  ∨ (∃ resp, transport (sent w) (inventory_request storeId) = Ok resp
             ∧ decode_slice (Body resp) = Err err) →
  GetCertStoreInventory growslice transport storeId w
  = Done (Err err, after_request (inventory_request storeId) w).
Proof. apply GetCertStoreInventory_fails. Qed.

Lemma slot_item_covers sl k :
  sets_cover_certificates (slot_item sl (take k (slotCertificates sl))).
Proof.
  intros c Hc. apply elem_of_take in Hc as (i & Hc & _).
  apply list_elem_of_lookup_2 in Hc.
  unfold slot_item. cbn [itemThumbprints itemSerials itemIds].
  rewrite !set_of_lookup.
  rewrite !decide_True; [done|by apply list_elem_of_fmap_2..].
Qed.

(** X13.  What is left of the invariant between the sets and the list: in
    every item returned, each listed certificate has its thumbprint, serial
    number and id in the three sets; and for each slot that holds a
    certificate, one returned item lists all the certificates of the slot and
    has sets equal to the projections of its list. *)
Theorem inventory_sets_cover_certificates
    (storeId : string) (resp : response) (jsonResp : list value)
    (slots : list Slot) (w : World) :
  transport (sent w) (inventory_request storeId) = Ok resp →
  decode_slice (Body resp) = Ok jsonResp →
  mapM slot_of jsonResp = Done slots →
  ∃ items,
    inventory_of (GetCertStoreInventory growslice transport storeId w)
      = Some (Ok items)
    ∧ Forall sets_cover_certificates items
    ∧ ∀ sl, sl ∈ slots → slotCertificates sl ≠ [] →
        ∃ item, item ∈ items
          ∧ itemCertificates item = slotCertificates sl
          ∧ sets_match_certificates item.
Proof.
  intros Hresp Hdecode Hslots. exists (slots ≫= slot_items).
  split; [by eapply inventory_of_spec|]. split.
  - apply Forall_forall. intros item Hitem.
    apply list_elem_of_bind in Hitem as (sl & Hitem & _).
    unfold slot_items in Hitem.
    apply list_elem_of_fmap in Hitem as (k & -> & _). apply slot_item_covers.
  - intros sl Hsl Hcerts. exists (slot_item sl (slotCertificates sl)).
    split; [|by repeat split].
    apply list_elem_of_bind. exists sl. split; [|done].
    unfold slot_items. apply list_elem_of_fmap.
    exists (length (slotCertificates sl)). split.
    + by rewrite take_ge.
    + apply elem_of_seq. destruct (slotCertificates sl); [done|]. simpl. lia.
Qed.

Lemma read_item_after_request r w it :
  read_item (after_request r w) it = read_item w it.
Proof. reflexivity. Qed.

(** X14.  A call does not disturb what earlier calls returned: an item whose
    references are allocated before the call reads the same after it
    (certificates, parameters and the three sets), whatever the call
    returns. *)
Theorem GetCertStoreInventory_preserves_items
    (storeId : string) (w w' : World)
    (r : result (list CertStoreInventory.t)) (it : CertStoreInventory.t) :
  GetCertStoreInventory growslice transport storeId w = Done (r, w') →
  item_in w it →
  item_in w' it ∧ read_item w' it = read_item w it.
Proof.
  unfold GetCertStoreInventory, mbind at 1, M_bind at 1, sendRequest.
  fold (inventory_request storeId).
  fold (after_request (inventory_request storeId) w).
  intros Hrun Hit.
  destruct (transport (sent w) (inventory_request storeId)) as [resp|err].
  2: { injection Hrun as <- <-. by split. }
  destruct (decode_slice (Body resp)) as [jsonResp|err].
  2: { injection Hrun as <- <-. by split. }
  destruct (decide (length jsonResp = 0%nat)).
  { injection Hrun as <- <-. by split. }
  unfold mbind, M_bind in Hrun.
  destruct (mapM slot_of jsonResp) as [slots|] eqn:Hslots.
  - destruct (range_stored_certs_spec growslice jsonResp slots []
                (after_request (inventory_request storeId) w) Hslots)
      as (w1 & items & Hrun1 & _ & Hframe & _).
    rewrite Hrun1 in Hrun. injection Hrun as <- <-.
    destruct (Hframe it Hit) as [Hin Hread]. split; [done|].
    by rewrite Hread.
  - by rewrite range_stored_certs_panics in Hrun.
Qed.

End more_inventory_facts.

(** X15.  The inventory a caller reads does not depend on the capacity the
    run time gives to a slice that [append] has to move: two growth policies
    give the same items, the same error or the same panic. *)
Theorem inventory_independent_of_growslice
    (growslice1 growslice2 : nat → nat)
    (transport : list request → request → result response)
    (storeId : string) (w : World) :
  inventory_of (GetCertStoreInventory growslice1 transport storeId w)
  = inventory_of (GetCertStoreInventory growslice2 transport storeId w).
Proof.
  destruct (transport (sent w) (inventory_request storeId)) as [resp|err] eqn:Hresp.
  2: { by rewrite !(GetCertStoreInventory_fails _ _ _ err) by (by left). }
  destruct (decode_slice (Body resp)) as [jsonResp|err] eqn:Hdecode.
  2: { by rewrite !(GetCertStoreInventory_fails _ _ _ err) by (right; eauto). }
  destruct (mapM slot_of jsonResp) as [slots|] eqn:Hslots.
  - by rewrite !(inventory_of_spec _ _ _ _ _ _ _ Hresp Hdecode Hslots).
  - by rewrite !(GetCertStoreInventory_panics _ _ _ _ _ _ Hresp Hdecode Hslots).
Qed.

Section sharing_facts.

Context (growslice : nat → nat).
Context (transport : list request → request → result response).

Lemma append_keeps_maps s x w s' w' :
  append growslice s x w = Done (s', w') →
  strmaps w' = strmaps w ∧ intmaps w' = intmaps w.
Proof.
  unfold append. destruct (arrays w !! ptr s); [|done].
  destruct (len s <? cap s)%nat; intros Hrun; by injection Hrun as <- <-.
Qed.

Lemma strmap_set_lengths m k b w u w' :
  strmap_set m k b w = Done (u, w') →
  length (strmaps w') = length (strmaps w) ∧ intmaps w' = intmaps w.
Proof.
  unfold strmap_set. destruct (strmaps w !! m); [|done].
  intros Hrun. injection Hrun as <- <-. simpl. by rewrite length_insert.
Qed.

Lemma intmap_set_lengths m k b w u w' :
  intmap_set m k b w = Done (u, w') →
  strmaps w' = strmaps w ∧ length (intmaps w') = length (intmaps w).
Proof.
  unfold intmap_set. destruct (intmaps w !! m); [|done].
  intros Hrun. injection Hrun as <- <-. simpl. by rewrite length_insert.
Qed.

Lemma range_certificates_refs certs : ∀ invC invResp w r w',
  range_certificates growslice certs invC invResp w = Done (r, w') →
  ∃ emitted,
    r.2 = invResp ++ emitted
    ∧ Forall (shares_maps invC) emitted
    ∧ length (strmaps w') = length (strmaps w)
    ∧ length (intmaps w') = length (intmaps w).
Proof.
  induction certs as [|cert certs IH]; intros invC invResp w r w' Hrun.
  - injection Hrun as <- <-. exists []. by rewrite app_nil_r.
  - cbn [range_certificates] in Hrun.
    unfold mbind at 1, M_bind at 1, pure in Hrun.
    destruct (iCert_of cert) as [c|]; [|done].
    unfold mbind at 1, M_bind at 1 in Hrun.
    destruct (append _ _ _ _) as [[s1 wa]|] eqn:Ha; [|done].
    unfold mbind at 1, M_bind at 1 in Hrun.
    destruct (field cert "Thumbprint" ≫= assert_string) as [thumbprint|]; [|done].
    unfold mbind at 1, M_bind at 1 in Hrun.
    destruct (strmap_set _ thumbprint _ _) as [[u1 wb]|] eqn:Hb; [|done].
    unfold mbind at 1, M_bind at 1 in Hrun.
    destruct (field cert "SerialNumber" ≫= assert_string) as [serial|]; [|done].
    unfold mbind at 1, M_bind at 1 in Hrun.
    destruct (strmap_set _ serial _ _) as [[u2 wc]|] eqn:Hc; [|done].
    unfold mbind at 1, M_bind at 1 in Hrun.
    destruct (field cert "Id" ≫= assert_float64) as [id|]; [|done].
    unfold mbind at 1, M_bind at 1 in Hrun.
    destruct (intmap_set _ _ _ _) as [[u3 wd]|] eqn:Hd; [|done].
    apply IH in Hrun as (emitted & Hr & Hshare & Hls & Hli).
    apply append_keeps_maps in Ha as [Ha1 Ha2].
    apply strmap_set_lengths in Hb as [Hb1 Hb2].
    apply strmap_set_lengths in Hc as [Hc1 Hc2].
    apply intmap_set_lengths in Hd as [Hd1 Hd2].
    exists (CertStoreInventory.set_Certificates s1 invC :: emitted).
    split; [by rewrite Hr, <-app_assoc|]. split.
    + constructor; [done|]. eapply Forall_impl; [exact Hshare|].
      by intros e (?&?&?).
    + split; congruence.
Qed.

Lemma stored_cert_refs storedCert invResp w invResp' w' :
  stored_cert growslice storedCert invResp w = Done (invResp', w') →
  ∃ emitted,
    invResp' = invResp ++ emitted
    ∧ Forall (λ e, CertStoreInventory.Thumbprints e = length (strmaps w)
                   ∧ CertStoreInventory.Serials e = S (length (strmaps w))
                   ∧ CertStoreInventory.Ids e = length (intmaps w)) emitted
    ∧ length (strmaps w') = S (S (length (strmaps w)))
    ∧ length (intmaps w') = S (length (intmaps w)).
Proof.
  unfold stored_cert. intros Hrun.
  unfold mbind at 1, M_bind at 1, pure in Hrun.
  destruct (field storedCert "Parameters") as [p|]; [|done].
  unfold mbind at 1, M_bind at 1 in Hrun.
  destruct (field storedCert "Name" ≫= assert_string) as [name|]; [|done].
  unfold mbind at 1, M_bind at 1 in Hrun.
  destruct (field storedCert "CertStoreInventoryItemId" ≫= assert_float64)
    as [itemId|]; [|done].
  unfold mbind at 1, M_bind at 1, empty_slice in Hrun.
  unfold mbind at 1, M_bind at 1, new_array, mret at 1, M_ret at 1 in Hrun.
  unfold mbind at 1, M_bind at 1, new_strmap in Hrun.
  unfold mbind at 1, M_bind at 1 in Hrun. cbn [strmaps intmaps arrays sent] in Hrun.
  unfold mbind at 1, M_bind at 1, new_intmap in Hrun.
  cbn [strmaps intmaps arrays sent] in Hrun.
  unfold mbind at 1, M_bind at 1 in Hrun.
  destruct (field storedCert "Certificates" ≫= assert_slice) as [certs|]; [|done].
  unfold mbind at 1, M_bind at 1 in Hrun.
  destruct (range_certificates _ _ _ _ _) as [[r w1]|] eqn:Hloop; [|done].
  injection Hrun as <- <-.
  apply range_certificates_refs in Hloop as (emitted & Hr & Hshare & Hls & Hli).
  cbn [strmaps intmaps] in Hls, Hli. rewrite !length_app in Hls.
  rewrite length_app in Hli. cbn [length] in Hls, Hli.
  exists emitted. split; [done|]. split.
  - eapply Forall_impl; [exact Hshare|]. intros e (H1 & H2 & H3).
    cbn in H1, H2, H3. rewrite length_app in H2. cbn [length] in H2.
    repeat split; [congruence|lia|congruence].
  - split; lia.
Qed.

Lemma range_stored_certs_refs jsonResp : ∀ invResp w invResp' w',
  range_stored_certs growslice jsonResp invResp w = Done (invResp', w') →
  ∃ groups,
    invResp' = invResp ++ concat groups
    ∧ length groups = length jsonResp
    ∧ ∀ j g e, groups !! j = Some g → e ∈ g →
        CertStoreInventory.Thumbprints e = (length (strmaps w) + 2 * j)%nat
        ∧ CertStoreInventory.Serials e = (length (strmaps w) + 2 * j + 1)%nat
        ∧ CertStoreInventory.Ids e = (length (intmaps w) + j)%nat.
Proof.
  induction jsonResp as [|storedCert rest IH]; intros invResp w invResp' w' Hrun.
  - injection Hrun as <- <-. exists []. rewrite app_nil_r.
    split; [done|]. split; [done|]. by intros j g e Hg.
  - cbn [range_stored_certs] in Hrun. unfold mbind at 1, M_bind at 1 in Hrun.
    destruct (stored_cert _ _ _ _) as [[invResp1 w1]|] eqn:Hone; [|done].
    apply stored_cert_refs in Hone as (emitted & -> & Hrefs & Hls & Hli).
    apply IH in Hrun as (groups & -> & Hlen & Hgroups).
    exists (emitted :: groups). split; [by rewrite <-app_assoc|].
    split; [simpl; by rewrite Hlen|].
    intros [|j] g e Hg He.
    + injection Hg as <-. rewrite Forall_forall in Hrefs.
      destruct (Hrefs e He) as (?&?&?). repeat split; lia.
    + destruct (Hgroups j g e Hg He) as (?&?&?). repeat split; lia.
Qed.

(** X16.  The items returned fall into one group per payload element, in
    order: the items of a group refer to the same three maps, so that a
    write through one of them shows in the others, and items of different
    groups have no map in common. *)
Theorem inventory_items_share_maps_per_slot
    (storeId : string) (resp : response) (jsonResp : list value)
    (items : list CertStoreInventory.t) (w w' : World) :
  transport (sent w) (inventory_request storeId) = Ok resp →
  decode_slice (Body resp) = Ok jsonResp →
  GetCertStoreInventory growslice transport storeId w = Done (Ok items, w') →
  ∃ groups,
    items = concat groups
    ∧ length groups = length jsonResp
    ∧ (∀ g a b, g ∈ groups → a ∈ g → b ∈ g → shares_maps a b)
    ∧ (∀ i j ga gb a b, i ≠ j → groups !! i = Some ga → groups !! j = Some gb →
         a ∈ ga → b ∈ gb → separate_maps a b).
Proof.
  intros Hresp Hdecode.
  unfold GetCertStoreInventory, mbind at 1, M_bind at 1, sendRequest.
  fold (inventory_request storeId). rewrite Hresp, Hdecode.
  destruct (decide (length jsonResp = 0%nat)) as [Hnil|_].
  - intros Hrun. injection Hrun as <- <-. exists [].
    split; [done|]. split; [done|]. split.
    + intros g a b Hg. by apply elem_of_nil in Hg.
    + by intros i j ga gb a b _ Hga.
  - unfold mbind, M_bind.
    destruct (range_stored_certs _ _ _ _) as [[invResp w1]|] eqn:Hloop; [|done].
    intros Hrun. injection Hrun as <- <-.
    apply range_stored_certs_refs in Hloop as (groups & -> & Hlen & Hgroups).
    exists groups. split; [done|]. split; [done|]. split.
    + intros g a b Hg Ha Hb. apply list_elem_of_lookup in Hg as [j Hj].
      destruct (Hgroups j g a Hj Ha) as (?&?&?).
      destruct (Hgroups j g b Hj Hb) as (?&?&?).
      unfold shares_maps. repeat split; congruence.
    + intros i j ga gb a b Hne Hi Hj Ha Hb.
      destruct (Hgroups i ga a Hi Ha) as (?&?&?).
      destruct (Hgroups j gb b Hj Hb) as (?&?&?).
      unfold separate_maps. repeat split; lia.
Qed.

(** X17.  [Parameters] is optional: when the only element of the payload
    passes the other assertions, every item returned carries its
    [Parameters] object, or the empty mapping when the element has no
    [Parameters] or has one that is not an object. *)
Theorem inventory_parameters_default
    (storeId : string) (resp : response) (o : gmap string value)
    (sl : Slot) (w : World) :
  transport (sent w) (inventory_request storeId) = Ok resp →
  decode_slice (Body resp) = Ok [JObject o] →
  slot_of (JObject o) = Done sl →
  ∃ items,
    inventory_of (GetCertStoreInventory growslice transport storeId w)
      = Some (Ok items)
    ∧ length items = length (slotCertificates sl)
    ∧ ∀ item, item ∈ items →
        itemParameters item
        = match o !! "Parameters" with
          | Some (JObject p) => p
          | _ => ∅
          end.
Proof.
  intros Hresp Hdecode Hsl. exists (slot_items sl).
  assert (mapM slot_of [JObject o] = Done [sl]) as Hslots.
  { simpl. by rewrite Hsl. }
  rewrite (inventory_of_spec growslice _ _ _ _ _ _ Hresp Hdecode Hslots).
  cbn [mbind list_bind]. rewrite app_nil_r. split; [done|]. split.
  { unfold slot_items. by rewrite length_fmap, length_seq. }
  intros item Hitem. unfold slot_items in Hitem.
  apply list_elem_of_fmap in Hitem as (k & -> & _).
  cbn [slot_item itemParameters].
  unfold slot_of in Hsl. cbn [field assert_map mbind outcome_bind mret outcome_ret]
    in Hsl.
  repeat (apply outcome_bind_Done in Hsl as (? & ? & Hsl)).
  injection Hsl as <-. cbn [slotParameters]. unfold index.
  by destruct (o !! "Parameters") as [[]|].
Qed.

End sharing_facts.

(* ===================================================================== *)
(** * Properties of the store-type operations *)
(* ===================================================================== *)

Lemma int32_in_range (id : Z) : - 2 ^ 31 ≤ id < 2 ^ 31 → int32 id = id.
Proof. intros Hid. unfold int32. rewrite Z.mod_small; lia. Qed.

Lemma int32_wraps (id k : Z) : int32 (id + k * 2 ^ 32) = int32 id.
Proof.
  unfold int32. replace (id + k * 2 ^ 32 + 2 ^ 31) with (id + 2 ^ 31 + k * 2 ^ 32)
    by lia.
  by rewrite Z.mod_add.
Qed.

Section store_type_facts.

Context {SdkStoreType CertificateStoreType : Type}.
Context (reshape : SdkStoreType → CertificateStoreType).
Context {SdkCreationRequest SdkUpdateRequest : Type}.
Context (creationRequest : SdkCreationRequest) (updateRequest : SdkUpdateRequest).
Context (sdk_get_by_name : string → string → string → result (list SdkStoreType)).
Context (sdk_get_by_id : Z → string → string → result SdkStoreType).
Context (sdk_get_types : string → string → result (list SdkStoreType)).
Context (sdk_create : SdkCreationRequest → string → string → result SdkStoreType).
Context (sdk_update : SdkUpdateRequest → string → string → result SdkStoreType).
Context (sdk_delete : Z → string → string → result (Z * string)).

Lemma reshape_each_fmap resp : ∀ newResp,
  reshape_each SdkStoreType CertificateStoreType reshape resp newResp
  = newResp ++ (reshape <$> resp).
Proof.
  induction resp as [|r resp IH]; intros newResp; simpl.
  - by rewrite app_nil_r.
  - by rewrite IH, <-app_assoc.
Qed.

(** X18.  [ListCertificateStoreTypes] returns one store type for each one
    the SDK lists, converted, in the order of the SDK. *)
Theorem ListCertificateStoreTypes_in_order (resp : list SdkStoreType) :
  sdk_get_types "APIClient" "1" = Ok resp →
  ListCertificateStoreTypes SdkStoreType CertificateStoreType reshape sdk_get_types
  = Ok (reshape <$> resp).
Proof.
  intros Hresp. unfold ListCertificateStoreTypes.
  unfold xKeyfactorRequestedWith, xKeyfactorApiVersion. rewrite Hresp.
  by rewrite reshape_each_fmap.
Qed.

(** X19.  Lookup by name returns the first store type the SDK lists under
    the name and ignores the others; when the SDK lists none, it returns the
    error that no store type has the name.  [GetCertificateStoreType] with a
    string does the same. *)
Theorem GetCertificateStoreTypeByName_first (name : string) (resp : list SdkStoreType) :
  sdk_get_by_name name "APIClient" "1" = Ok resp →
  GetCertificateStoreTypeByName SdkStoreType CertificateStoreType reshape
    sdk_get_by_name name
  = match resp with
    | first :: _ => Ok (reshape first)
    | [] => Err "no certificate store type found with the given name"
    end
  ∧ GetCertificateStoreType SdkStoreType CertificateStoreType reshape
      sdk_get_by_name sdk_get_by_id (AnyString name)
    = GetCertificateStoreTypeByName SdkStoreType CertificateStoreType reshape
        sdk_get_by_name name.
Proof.
  intros Hresp. split; [|reflexivity]. unfold GetCertificateStoreTypeByName.
  unfold xKeyfactorRequestedWith, xKeyfactorApiVersion. rewrite Hresp.
  rewrite reshape_each_fmap. by destruct resp.
Qed.

(** X20.  The id of a lookup or of a deletion reaches the SDK as an
    [int32]: an id within 32 bits is passed as it is, and two ids that differ
    by a multiple of [2 ^ 32] look up the same store type. *)
Theorem GetCertificateStoreTypeById_int32 (id k : Z) :
  GetCertificateStoreTypeById SdkStoreType CertificateStoreType reshape
    sdk_get_by_id (id + k * 2 ^ 32)
  = GetCertificateStoreTypeById SdkStoreType CertificateStoreType reshape
      sdk_get_by_id id
  ∧ (- 2 ^ 31 ≤ id < 2 ^ 31 →
     GetCertificateStoreTypeById SdkStoreType CertificateStoreType reshape
       sdk_get_by_id id
     = match sdk_get_by_id id "APIClient" "1" with
       | Err err => Err err
       | Ok resp => Ok (reshape resp)
       end).
Proof.
  unfold GetCertificateStoreTypeById. split.
  - by rewrite int32_wraps.
  - intros Hid. by rewrite int32_in_range.
Qed.

(** X21.  A deletion that the SDK answers with status 204 returns the id it
    was called with, also when the id sent to the SDK was another one
    because it does not fit in 32 bits; any other status is an error. *)
Theorem DeleteCertificateStoreType_status (id status : Z) (body : string) :
  sdk_delete (int32 id) "APIClient" "1" = Ok (status, body) →
  DeleteCertificateStoreType sdk_delete id
  = if decide (status = 204) then Ok {| ID := id |}
    else Err ("error deleting certificate store type " +:+ itoa id
                +:+ ". " +:+ body).
Proof.
  intros Hresp. unfold DeleteCertificateStoreType.
  unfold xKeyfactorRequestedWith, xKeyfactorApiVersion. rewrite Hresp.
  destruct (decide (status = 204)), (decide (status ≠ 204)); done.
Qed.

End store_type_facts.

(** ** The further properties at concrete inputs *)

Lemma GetCertStoreInventory_panics_iff_witness :
  GetCertStoreInventory doubling
    (answering {| StatusCode := 200; Body := missing_thumbprint_body |})
    "store-7" initial
  = Panicked.
Proof.
  refine (proj2 (GetCertStoreInventory_panics_iff doubling
                   (answering {| StatusCode := 200; Body := missing_thumbprint_body |})
                   "store-7"
                   {| StatusCode := 200; Body := missing_thumbprint_body |}
                   (elements_of missing_thumbprint_body) initial eq_refl _) _);
    vm_compute; reflexivity.
Defined.

Lemma GetCertStoreInventory_empty_witness :
  GetCertStoreInventory doubling
    (answering {| StatusCode := 500; Body := "null" |}) "store-7" initial
  = Done (Ok [], after_request (inventory_request "store-7") initial).
Proof.
  apply (GetCertStoreInventory_empty doubling
           (answering {| StatusCode := 500; Body := "null" |}) "store-7"
           {| StatusCode := 500; Body := "null" |} initial eq_refl).
  left. vm_compute. reflexivity.
Defined.

Lemma GetCertStoreInventory_errors_witness :
  GetCertStoreInventory doubling
    (answering {| StatusCode := 200; Body := "{}" |}) "store-7" initial
  = Done (Err json_type_error, after_request (inventory_request "store-7") initial).
Proof.
  apply (GetCertStoreInventory_errors doubling
           (answering {| StatusCode := 200; Body := "{}" |}) "store-7"
           json_type_error initial).
  right. exists {| StatusCode := 200; Body := "{}" |}.
  split; [reflexivity|]. vm_compute. reflexivity.
Defined.

Lemma inventory_sets_cover_certificates_witness :
  ∃ items,
    inventory_of
      (GetCertStoreInventory doubling
         (answering {| StatusCode := 200; Body := two_certificates_body |})
         "store-7" initial)
    = Some (Ok items)
    ∧ Forall sets_cover_certificates items.
Proof.
  destruct (inventory_sets_cover_certificates doubling
              (answering {| StatusCode := 200; Body := two_certificates_body |})
              "store-7"
              {| StatusCode := 200; Body := two_certificates_body |}
              (elements_of two_certificates_body) [two_certificates_slot]
              initial eq_refl)
    as (items & Hinv & Hcover & _); [vm_compute; reflexivity..|].
  exists items. by split.
Defined.

Lemma GetCertStoreInventory_preserves_items_witness :
  let first_call :=
    GetCertStoreInventory doubling
      (answering {| StatusCode := 200; Body := two_certificates_body |})
      "store-7" initial in
  let second_call :=
    GetCertStoreInventory doubling
      (answering {| StatusCode := 200; Body := empty_slot_body |})
      "store-8" (world_after first_call) in
  Forall (λ it, read_item (world_after second_call) it
                = read_item (world_after first_call) it)
    (items_after first_call).
Proof.
  intros first_call second_call.
  assert (second_call
          = Done (Ok (items_after second_call), world_after second_call)) as Hrun
    by (vm_compute; reflexivity).
  apply Forall_forall. intros it Hit.
  refine (proj2 (GetCertStoreInventory_preserves_items doubling _ _ _ _ _ it
                   Hrun _)).
  revert it Hit. apply Forall_forall. vm_compute.
  repeat constructor.
Defined.

Lemma inventory_items_share_maps_per_slot_witness :
  ∃ groups,
    items_after
      (GetCertStoreInventory doubling
         (answering {| StatusCode := 200; Body := empty_slot_body |})
         "store-7" initial)
    = concat groups
    ∧ length groups = 3%nat.
Proof.
  destruct (inventory_items_share_maps_per_slot doubling
              (answering {| StatusCode := 200; Body := empty_slot_body |})
              "store-7"
              {| StatusCode := 200; Body := empty_slot_body |}
              (elements_of empty_slot_body)
              (items_after
                 (GetCertStoreInventory doubling
                    (answering {| StatusCode := 200; Body := empty_slot_body |})
                    "store-7" initial))
              initial
              (world_after
                 (GetCertStoreInventory doubling
                    (answering {| StatusCode := 200; Body := empty_slot_body |})
                    "store-7" initial))
              eq_refl)
    as (groups & Hitems & Hlen & _); [vm_compute; reflexivity..|].
  exists groups. split; [exact Hitems|].
  etrans; [exact Hlen|]. vm_compute. reflexivity.
Defined.

Lemma inventory_parameters_default_witness :
  ∃ items,
    inventory_of
      (GetCertStoreInventory doubling
         (answering {| StatusCode := 200; Body := two_certificates_body |})
         "store-7" initial)
    = Some (Ok items)
    ∧ length items = 2%nat
    ∧ ∀ item, item ∈ items → itemParameters item = ∅.
Proof.
  destruct (inventory_parameters_default doubling
              (answering {| StatusCode := 200; Body := two_certificates_body |})
              "store-7"
              {| StatusCode := 200; Body := two_certificates_body |}
              (match elements_of two_certificates_body with
               | [JObject o] => o
               | _ => ∅
               end)
              two_certificates_slot initial eq_refl)
    as (items & Hinv & Hlen & Hparams); [vm_compute; reflexivity..|].
  exists items. split; [exact Hinv|]. split; [exact Hlen|].
  intros item Hitem. etrans; [by apply Hparams|]. vm_compute. reflexivity.
Defined.

Lemma ListCertificateStoreTypes_in_order_witness :
  ListCertificateStoreTypes string nat String.length sdk_three_types
  = Ok [3; 3; 2]%nat.
Proof.
  apply (ListCertificateStoreTypes_in_order String.length sdk_three_types
           ["JKS"; "PEM"; "F5"]).
  reflexivity.
Defined.

Lemma GetCertificateStoreTypeByName_first_witness :
  GetCertificateStoreTypeByName string string id sdk_two_pem "PEM" = Ok "PEM-a"
  ∧ GetCertificateStoreTypeByName string string id sdk_two_pem "JKS"
    = Err "no certificate store type found with the given name".
Proof.
  split.
  - apply (proj1 (GetCertificateStoreTypeByName_first id sdk_two_pem sdk_no_id
                    "PEM" ["PEM-a"; "PEM-b"] eq_refl)).
  - apply (proj1 (GetCertificateStoreTypeByName_first id sdk_two_pem sdk_no_id
                    "JKS" [] eq_refl)).
Defined.

Lemma DeleteCertificateStoreType_status_witness :
  DeleteCertificateStoreType sdk_delete_ok (2 ^ 32 + 5) = Ok {| ID := 2 ^ 32 + 5 |}.
Proof.
  apply (DeleteCertificateStoreType_status sdk_delete_ok (2 ^ 32 + 5) 204 "").
  reflexivity.
Defined.
